(** * github_contribution.py: the commit-date synthesizer and the repository driver

    A shallow embedding of [src/github_contribution.py] (class
    [GitRepository]) and the properties of its commit schedule, of the
    directory name it derives and of the driver's failure behaviour.

    Conventions of the embedding:
    - Python [int] is [Z]; [None] is [None] of [option]; a [str] is the
      [string] of its bytes, so that indices are those of Python on ASCII
      text, and a slice cut at an ASCII character is the slice of Python.
    - a [datetime] is kept as its proleptic Gregorian ordinal
      ([datetime.toordinal()], day 1 = 0001-01-01) together with its time of
      day; the calendar fields are recovered by [ord2ymd], the standard
      library's [_ord2ymd].
    - [datetime.now()] is an input of the constructor.
    - [random.randint] reads an explicit entropy source: the i-th call reads the
      i-th element of the source and reduces it into the requested range.
    - Python exceptions are the [Raise] results of a state-and-exception
      monad. *)

From Stdlib Require Import ZArith Lia Bool Ascii String.
From stdpp Require Import base list sorting gmap strings.

Local Open Scope Z_scope.

(** ** Exceptions and the state-and-exception monad *)

Inductive exn : Type :=
| OverflowError
| ValueError
| FileExistsError
| FileNotFoundError
| NotADirectoryError
| IsADirectoryError
| OSError.

Inductive result (A : Type) : Type :=
| Ok (a : A)
| Raise (e : exn).

Arguments Ok {A} a.
Arguments Raise {A} e.

Definition rbind {A B : Type} (r : result A) (k : A -> result B) : result B :=
  match r with
  | Ok a => k a
  | Raise e => Raise e
  end.

Notation "'let?' x ':=' c 'in' k" := (rbind c (fun x => k))
  (at level 10, x name, c at level 100, k at level 200, only parsing).

(** A computation over a state [S] that returns a value or raises; the state
    reached when the exception is raised is kept. *)
Definition SE (S A : Type) : Type := S -> result A * S.

Definition ret {S A : Type} (a : A) : SE S A := fun s => (Ok a, s).

Definition raise {S A : Type} (e : exn) : SE S A := fun s => (Raise e, s).

Definition bind {S A B : Type} (c : SE S A) (k : A -> SE S B) : SE S B :=
  fun s =>
    match c s with
    | (Ok a, s') => k a s'
    | (Raise e, s') => (Raise e, s')
    end.

Definition lift {S A : Type} (r : result A) : SE S A := fun s => (r, s).

Notation "'let!' x ':=' c 'in' k" := (bind c (fun x => k))
  (at level 10, x name, c at level 100, k at level 200, only parsing).

(** ** [datetime] and [timedelta] *)

Record datetime : Type := mk_datetime {
  ordinal : Z;
  hour : Z;
  minute : Z;
  second : Z;
  microsecond : Z
}.

Record timedelta : Type := mk_timedelta {
  td_days : Z;
  td_seconds : Z;
  td_microseconds : Z
}.

(** [datetime.max.toordinal()], the ordinal of 9999-12-31. *)
Definition MAXORDINAL : Z := 3652059.

(** The type invariant of a [datetime] object. *)
Definition valid_datetime (d : datetime) : Prop :=
  1 <= ordinal d <= MAXORDINAL /\
  0 <= hour d < 24 /\
  0 <= minute d < 60 /\
  0 <= second d < 60 /\
  0 <= microsecond d < 1000000.

(** The normalising constructor of [timedelta]: seconds and microseconds are
    carried into days, and more than 999999999 days either way overflow. *)
Definition new_timedelta (days seconds microseconds : Z) : result timedelta :=
  let s := seconds + microseconds / 1000000 in
  let us := microseconds mod 1000000 in
  let d := days + s / 86400 in
  let s' := s mod 86400 in
  if 999999999 <? Z.abs d then Raise OverflowError
  else Ok (mk_timedelta d s' us).

(** [timedelta(days)] and [timedelta(minutes=m)], the two forms the source
    uses. *)
Definition timedelta_of (days minutes : Z) : result timedelta :=
  new_timedelta days (minutes * 60) 0.

Definition timedelta_neg (t : timedelta) : result timedelta :=
  new_timedelta (- td_days t) (- td_seconds t) (- td_microseconds t).

(** [datetime.__add__(timedelta)]. *)
Definition datetime_add (d : datetime) (t : timedelta) : result datetime :=
  let? self :=
    new_timedelta (ordinal d)
      (hour d * 3600 + minute d * 60 + second d) (microsecond d) in
  let? delta :=
    new_timedelta (td_days self + td_days t)
      (td_seconds self + td_seconds t)
      (td_microseconds self + td_microseconds t) in
  if (0 <? td_days delta) && (td_days delta <=? MAXORDINAL) then
    Ok {| ordinal := td_days delta;
          hour := td_seconds delta / 3600;
          minute := (td_seconds delta mod 3600) / 60;
          second := (td_seconds delta mod 3600) mod 60;
          microsecond := td_microseconds delta |}
  else Raise OverflowError.

(** [datetime.__sub__(timedelta)] is [self + -other]. *)
Definition datetime_sub (d : datetime) (t : timedelta) : result datetime :=
  let? n := timedelta_neg t in datetime_add d n.

(** [datetime.replace(hour=h, minute=m)]. *)
Definition replace (d : datetime) (h m : Z) : datetime :=
  {| ordinal := ordinal d; hour := h; minute := m;
     second := second d; microsecond := microsecond d |}.

(** [datetime.weekday()]: Monday is 0 and Sunday is 6. *)
Definition weekday (d : datetime) : Z := (ordinal d + 6) mod 7.

(** Chronological order, as [datetime.__lt__] compares: field by field. *)
Definition datetime_key (d : datetime) : Z :=
  (((ordinal d * 24 + hour d) * 60 + minute d) * 60 + second d) * 1000000
  + microsecond d.

Definition datetime_ltb (a b : datetime) : bool :=
  (ordinal a <? ordinal b) ||
  ((ordinal a =? ordinal b) &&
   ((hour a <? hour b) ||
    ((hour a =? hour b) &&
     ((minute a <? minute b) ||
      ((minute a =? minute b) &&
       ((second a <? second b) ||
        ((second a =? second b) && (microsecond a <? microsecond b)))))))).

Definition datetime_lt (a b : datetime) : Prop := datetime_ltb a b = true.

Definition datetime_le (a b : datetime) : Prop := datetime_ltb b a = false.

(** ** The random source *)

Record rng : Type := mk_rng {
  source : nat -> Z;
  drawn : nat
}.

(** The value [randint(a, b)] returns when the source yields [r]. *)
Definition randint_value (a b r : Z) : Z := a + r mod (b - a + 1).

(** [random.randint(a, b)]: an integer of [a..b], both ends included; an
    empty range is a [ValueError]. *)
Definition randint (a b : Z) : SE rng Z :=
  fun g =>
    if b <? a then (Raise ValueError, g)
    else (Ok (randint_value a b (source g (drawn g))),
          mk_rng (source g) (S (drawn g))).

(** ** Configuration: the parsed command-line arguments *)

Record Args : Type := mk_Args {
  no_weekends : bool;
  max_commits : Z;
  frequency : Z;
  repository : option string;
  user_name : option string;
  user_email : option string;
  days_before : Z;
  days_after : Z
}.

(** [range(n)]. *)
Definition range (n : Z) : list Z := seqZ 0 n.

(** ** The commit-date synthesizer *)

Section Synthesizer.

Variable args : Args.
Variable curr_date : datetime.

(** [_contributions_per_day]. *)
Definition _contributions_per_day : SE rng Z :=
  let max_commits := max_commits args in
  randint 1 (Z.max 1 (Z.min 20 max_commits)).

(** The inner loop: one date per minute offset, appended in turn. *)
Fixpoint append_commit_times (day : datetime) (ms : list Z)
    (commit_dates : list datetime) : SE rng (list datetime) :=
  match ms with
  | [] => ret commit_dates
  | m :: ms' =>
      let! commit_time :=
        lift (let? t := timedelta_of 0 m in datetime_add day t) in
      append_commit_times day ms' (commit_dates ++ [commit_time])
  end.

(** The test of the [if]: [and] evaluates [randint] only when its left
    operand holds. *)
Definition day_included (day : datetime) : SE rng bool :=
  if negb (no_weekends args) || (weekday day <? 5) then
    let! r := randint 0 100 in
    ret (r <? frequency args)
  else ret false.

(** The body of the [if]: the bound of the inner [range] is drawn before
    the first offset is produced. *)
Definition day_commits (day : datetime) (commit_dates : list datetime)
    : SE rng (list datetime) :=
  let! bound := _contributions_per_day in
  let! count := randint 1 bound in
  append_commit_times day (range count) commit_dates.

(** One iteration of the outer loop, for the day already computed. *)
Definition day_step (day : datetime) (commit_dates : list datetime)
    : SE rng (list datetime) :=
  let! included := day_included day in
  if included then day_commits day commit_dates else ret commit_dates.

(** The outer loop over [n in range(days_before + days_after)]. *)
Fixpoint days_loop (start_date : datetime) (ns : list Z)
    (commit_dates : list datetime) : SE rng (list datetime) :=
  match ns with
  | [] => ret commit_dates
  | n :: ns' =>
      let! day :=
        lift (let? t := timedelta_of n 0 in datetime_add start_date t) in
      let! commit_dates' := day_step day commit_dates in
      days_loop start_date ns' commit_dates'
  end.

(** The anchor: the current time with hour 20 and minute 0. *)
Definition anchor : datetime := replace curr_date 20 0.

(** [_generate_commit_dates]. *)
Definition _generate_commit_dates : SE rng (list datetime) :=
  let! start_date :=
    lift (let? t := timedelta_of (days_before args) 0 in
          datetime_sub anchor t) in
  days_loop start_date (range (days_before args + days_after args)) [].

End Synthesizer.

(** ** Calendar fields and [strftime] *)

(** [_DAYS_BEFORE_MONTH[month]] and [_DAYS_IN_MONTH[month]]. *)
Definition DAYS_BEFORE_MONTH (month : Z) : Z :=
  match month with
  | 1 => 0 | 2 => 31 | 3 => 59 | 4 => 90 | 5 => 120 | 6 => 151
  | 7 => 181 | 8 => 212 | 9 => 243 | 10 => 273 | 11 => 304 | 12 => 334
  | _ => -1
  end.

Definition DAYS_IN_MONTH (month : Z) : Z :=
  match month with
  | 1 => 31 | 2 => 28 | 3 => 31 | 4 => 30 | 5 => 31 | 6 => 30
  | 7 => 31 | 8 => 31 | 9 => 30 | 10 => 31 | 11 => 30 | 12 => 31
  | _ => -1
  end.

Definition Z_of_bool (b : bool) : Z := if b then 1 else 0.

(** [_ord2ymd]: ordinal to (year, month, day), proleptic Gregorian. *)
Definition ord2ymd (n : Z) : Z * Z * Z :=
  let n := n - 1 in
  let n400 := n / 146097 in
  let n := n mod 146097 in
  let year := n400 * 400 + 1 in
  let n100 := n / 36524 in
  let n := n mod 36524 in
  let n4 := n / 1461 in
  let n := n mod 1461 in
  let n1 := n / 365 in
  let n := n mod 365 in
  let year := year + n100 * 100 + n4 * 4 + n1 in
  if (n1 =? 4) || (n100 =? 4) then (year - 1, 12, 31)
  else
    let leapyear := (n1 =? 3) && (negb (n4 =? 24) || (n100 =? 3)) in
    let month := Z.shiftr (n + 50) 5 in
    let preceding :=
      DAYS_BEFORE_MONTH month + Z_of_bool ((2 <? month) && leapyear) in
    if n <? preceding then
      let month := month - 1 in
      let preceding :=
        preceding
        - (DAYS_IN_MONTH month + Z_of_bool ((month =? 2) && leapyear)) in
      (year, month, n - preceding + 1)
    else (year, month, n - preceding + 1).

Definition year (d : datetime) : Z := (ord2ymd (ordinal d)).1.1.
Definition month (d : datetime) : Z := (ord2ymd (ordinal d)).1.2.
Definition day (d : datetime) : Z := (ord2ymd (ordinal d)).2.

(** The decimal digit of the units of [n]. *)
Definition digit (n : Z) : ascii := ascii_of_nat (Z.to_nat (48 + n mod 10)).

(** [n] in decimal, zero-padded to [w] digits (the fields of a [datetime]
    never need more than their width). *)
Fixpoint zpad (w : nat) (n : Z) : string :=
  match w with
  | O => EmptyString
  | S w' => zpad w' (n / 10) +:+ String (digit n) EmptyString
  end.

(** [%Y]: the year in decimal.  The C library does not pad it; where it is
    padded to four digits the result is the same from the year 1000 on. *)
Definition format_year (y : Z) : string :=
  if y <? 10 then zpad 1 y
  else if y <? 100 then zpad 2 y
  else if y <? 1000 then zpad 3 y
  else zpad 4 y.

(** The directives the source uses. *)
Definition directive (d : datetime) (c : ascii) : string :=
  if Ascii.eqb c "Y" then format_year (year d)
  else if Ascii.eqb c "m" then zpad 2 (month d)
  else if Ascii.eqb c "d" then zpad 2 (day d)
  else if Ascii.eqb c "H" then zpad 2 (hour d)
  else if Ascii.eqb c "M" then zpad 2 (minute d)
  else if Ascii.eqb c "S" then zpad 2 (second d)
  else if Ascii.eqb c "%" then String c EmptyString
  else String "%" (String c EmptyString).

(** [datetime.strftime(fmt)]. *)
Fixpoint strftime (d : datetime) (fmt : string) : string :=
  match fmt with
  | EmptyString => EmptyString
  | String a rest =>
      if Ascii.eqb a "%" then
        match rest with
        | String c rest' => directive d c +:+ strftime d rest'
        | EmptyString => String a EmptyString
        end
      else String a (strftime d rest)
  end.

(** ** [str.rfind] and slicing *)

Fixpoint rfind_from (c : ascii) (s : string) (i last : Z) : Z :=
  match s with
  | EmptyString => last
  | String a s' => rfind_from c s' (i + 1) (if Ascii.eqb a c then i else last)
  end.

(** [s.rfind(c)] for a one-character [c]: the highest index of [c] in [s],
    or -1. *)
Definition rfind (s : string) (c : ascii) : Z := rfind_from c s 0 (-1).

(** A bound of a slice: a negative index counts from the end, and both are
    clipped to the string. *)
Definition slice_index (len i : Z) : Z :=
  if i <? 0 then Z.max 0 (i + len) else Z.min i len.

(** [s[start:stop]]. *)
Definition slice (s : string) (start stop : Z) : string :=
  let len := Z.of_nat (String.length s) in
  let lo := slice_index len start in
  let hi := slice_index len stop in
  if lo <? hi then substring (Z.to_nat lo) (Z.to_nat (hi - lo)) s
  else EmptyString.

(** ** The target directory *)

(** [_determine_directory]; [None] and the empty string are both false. *)
Definition _determine_directory (args : Args) (curr_date : datetime) : string :=
  match repository args with
  | Some (String a u' as u) =>
      let start := rfind u "/" + 1 in
      let end_ := rfind u "." in
      slice u start end_
  | _ => "repository-" +:+ strftime curr_date "%Y-%m-%d-%H-%M-%S"
  end.

(** ** The repository driver *)

(** The object the constructor builds. *)
Record GitRepository : Type := mk_GitRepository {
  args : Args;
  curr_date : datetime;
  directory : string;
  commit_dates : list datetime
}.

(** [__init__], given the reading of the clock. *)
Definition GitRepository_init (a : Args) (now : datetime)
    : SE rng GitRepository :=
  let directory := _determine_directory a now in
  let! commit_dates := _generate_commit_dates a now in
  ret (mk_GitRepository a now directory commit_dates).

(** What the driver acts on: the file system below the root, the working
    directory, the external commands run so far, the lines written to the
    standard output, and the environment. *)
Inductive node : Type :=
| Dir
| File (content : string).

(** The calls the driver makes to the operating system. *)
Inductive call : Type :=
| Mkdir (path : list string)
| Chdir (path : list string)
| Append (path : list string)
| Spawn (commands : list string)
| Print (line : string).

(** What lies outside the program.  [refuses] is the error the operating
    system answers a call with, when it has one besides those the entries
    of the file system decide: a name too long, a permission denied, a full
    disk, a closed output, an executable that is not there.  [process] is
    what a command that starts does before it ends: the file system it
    leaves and the lines it writes to the standard output it inherits.
    Both are given the working directory, the file system and the commands
    run before. *)
Record environment : Type := mk_environment {
  refuses : call -> list string -> gmap (list string) node ->
            list (list string) -> option exn;
  process : list string -> list string -> gmap (list string) node ->
            list (list string) -> gmap (list string) node * list string
}.

Record world : Type := mk_world {
  cwd : list string;
  fs : gmap (list string) node;
  procs : list (list string);
  stdout : list string;
  env : environment
}.

(** The answer of the operating system to a call made in the world [w]. *)
Definition refusal (w : world) (c : call) : option exn :=
  refuses (env w) c (cwd w) (fs w) (procs w).

(** The entry a one-component relative path names, if any: no entry has
    the empty name, and [.] and [..] always name directories. *)
Definition lookup_path (w : world) (name : string) : option node :=
  if bool_decide (name = "") then None
  else if bool_decide (name = ".") || bool_decide (name = "..") then Some Dir
  else fs w !! (cwd w ++ [name]).

(** [os.mkdir(name)]. *)
Definition os_mkdir (name : string) : SE world unit :=
  fun w =>
    match lookup_path w name with
    | Some _ => (Raise FileExistsError, w)
    | None =>
        if bool_decide (name = "") then (Raise FileNotFoundError, w)
        else
          match refusal w (Mkdir (cwd w ++ [name])) with
          | Some e => (Raise e, w)
          | None =>
              (Ok tt,
               mk_world (cwd w) (<[cwd w ++ [name] := Dir]> (fs w))
                        (procs w) (stdout w) (env w))
          end
    end.

(** [os.chdir(name)], for a name [os.mkdir] has just created. *)
Definition os_chdir (name : string) : SE world unit :=
  fun w =>
    match fs w !! (cwd w ++ [name]) with
    | Some Dir =>
        match refusal w (Chdir (cwd w ++ [name])) with
        | Some e => (Raise e, w)
        | None =>
            (Ok tt,
             mk_world (cwd w ++ [name]) (fs w) (procs w) (stdout w) (env w))
        end
    | Some (File _) => (Raise NotADirectoryError, w)
    | None => (Raise FileNotFoundError, w)
    end.

(** [with open(os.path.join(os.getcwd(), name), "a") as file:
      file.write(text)]. *)
Definition append_file (name text : string) : SE world unit :=
  fun w =>
    match fs w !! (cwd w ++ [name]) with
    | Some Dir => (Raise IsADirectoryError, w)
    | o =>
        match refusal w (Append (cwd w ++ [name])) with
        | Some e => (Raise e, w)
        | None =>
            (Ok tt,
             mk_world (cwd w)
               (<[cwd w ++ [name] :=
                    File (match o with
                          | Some (File content) => content +:+ text
                          | _ => text
                          end)]> (fs w))
               (procs w) (stdout w) (env w))
        end
    end.

(** [_run_command]: [Popen] starts the command or raises; a command that
    starts runs to its end, and its exit status is dropped. *)
Definition _run_command (commands : list string) : SE world unit :=
  fun w =>
    match refusal w (Spawn commands) with
    | Some e => (Raise e, w)
    | None =>
        let (fs', out) :=
          process (env w) commands (cwd w) (fs w) (procs w) in
        (Ok tt,
         mk_world (cwd w) fs' (procs w ++ [commands]) (stdout w ++ out)
                  (env w))
    end.

Definition print (line : string) : SE world unit :=
  fun w =>
    match refusal w (Print line) with
    | Some e => (Raise e, w)
    | None =>
        (Ok tt,
         mk_world (cwd w) (fs w) (procs w) (stdout w ++ [line]) (env w))
    end.

(** An optional string is true when it is given and not empty. *)
Definition truthy (o : option string) : option string :=
  match o with
  | Some (String _ _ as s) => Some s
  | _ => None
  end.

Definition newline : string := String "010" EmptyString.
Definition dquote : string := String "034" EmptyString.

(** [_create_and_initialize_repository]. *)
Definition _create_and_initialize_repository (self : GitRepository)
    : SE world unit :=
  let! _ := os_mkdir (directory self) in
  let! _ := os_chdir (directory self) in
  let! _ := _run_command ["git"; "init"; "-b"; "main"] in
  let! _ :=
    match truthy (user_name (args self)) with
    | Some name => _run_command ["git"; "config"; "user.name"; name]
    | None => ret tt
    end in
  match truthy (user_email (args self)) with
  | Some email => _run_command ["git"; "config"; "user.email"; email]
  | None => ret tt
  end.

(** [_generate_commit_message]. *)
Definition _generate_commit_message (date : datetime) : string :=
  strftime date "Contribution: %Y-%m-%d %H:%M".

(** [_contribute]. *)
Definition _contribute (date : datetime) : SE world unit :=
  let! _ :=
    append_file "README.md"
      (_generate_commit_message date +:+ newline +:+ newline) in
  let! _ := _run_command ["git"; "add"; "."] in
  _run_command
    ["git"; "commit"; "-m"; _generate_commit_message date; "--date";
     strftime date (dquote +:+ "%Y-%m-%d %H:%M:%S" +:+ dquote)].

(** [_setup_remote_repository]. *)
Definition _setup_remote_repository (url : string) : SE world unit :=
  let! _ := _run_command ["git"; "remote"; "add"; "origin"; url] in
  let! _ := _run_command ["git"; "branch"; "-M"; "main"] in
  _run_command ["git"; "push"; "-u"; "origin"; "main"].

(** A [for] loop run for its effects. *)
Fixpoint for_each {S A : Type} (xs : list A) (body : A -> SE S unit)
    : SE S unit :=
  match xs with
  | [] => ret tt
  | x :: xs' => let! _ := body x in for_each xs' body
  end.

(** [setup]. *)
Definition setup (self : GitRepository) : SE world unit :=
  let! _ := _create_and_initialize_repository self in
  let! _ := for_each (commit_dates self) _contribute in
  let! _ :=
    match truthy (repository (args self)) with
    | Some url => _setup_remote_repository url
    | None => ret tt
    end in
  print (newline +:+ "Repository generation completed successfully!").

(** The script: build the object, then run [setup]; an exception of either
    ends the run. *)
Definition main (a : Args) (now : datetime) (g : rng) (w : world)
    : result unit * world :=
  match GitRepository_init a now g with
  | (Ok repo, _) => setup repo w
  | (Raise e, _) => (Raise e, w)
  end.

(** ** Vocabulary of the statements *)

(** The date [n] days after [d], at the same time of day, with no regard
    for the range of [datetime]. *)
Definition shift_days (d : datetime) (n : Z) : datetime :=
  {| ordinal := ordinal d + n; hour := hour d; minute := minute d;
     second := second d; microsecond := microsecond d |}.

(** The ordinals a [datetime] can hold. *)
Definition in_range (o : Z) : bool := (1 <=? o) && (o <=? MAXORDINAL).

(** Seconds since midnight. *)
Definition time_of_day (d : datetime) : Z :=
  hour d * 3600 + minute d * 60 + second d.

(** The date of day [o], [m] minutes after 20:00, with the seconds and
    microseconds of the clock reading [now]. *)
Definition stamp (now : datetime) (o m : Z) : datetime :=
  mk_datetime o 20 m (second now) (microsecond now).

(** The [k] dates of day [o], in the order they are appended. *)
Definition day_block (now : datetime) (o k : Z) : list datetime :=
  map (stamp now o) (range k).

(** [max(1, min(20, max_commits))]. *)
Definition clamp (max_commits : Z) : Z := Z.max 1 (Z.min 20 max_commits).

(** The source after [k] more draws, and the [i]-th draw to come. *)
Definition advance (g : rng) (k : nat) : rng :=
  mk_rng (source g) (drawn g + k).

Definition draw (g : rng) (i : nat) : Z := source g (drawn g + i)%nat.

(** The draw that decides whether a day is included, and the bound and the
    count an included day then draws, all from the source [g]. *)
Definition day_draw (g : rng) : Z := randint_value 0 100 (draw g 0).

Definition day_bound (a : Args) (g : rng) : Z :=
  randint_value 1 (clamp (max_commits a)) (draw g 0).

Definition day_count (a : Args) (g : rng) : Z :=
  randint_value 1 (day_bound a g) (draw g 1).

(** A plan lists the included days, each as its index [n] in the window and
    the number [k] of its commits; [schedule_of] is the schedule it stands
    for, [o0] being the ordinal of the first day of the window. *)
Definition schedule_of (now : datetime) (o0 : Z) (plan : list (Z * Z))
    : list datetime :=
  flat_map (fun nk => day_block now (o0 + nk.1) nk.2) plan.

(** What holds of every entry of a plan the synthesizer follows. *)
Definition plan_ok (a : Args) (o0 : Z) (nk : Z * Z) : Prop :=
  in_range (o0 + nk.1) = true /\
  1 <= nk.2 <= clamp (max_commits a) /\
  (no_weekends a = true -> (o0 + nk.1 + 6) mod 7 < 5) /\
  0 < frequency a.

(** The ordinal of the first day of the window. *)
Definition first_day (a : Args) (now : datetime) : Z :=
  ordinal now - days_before a.

(** The half-open window of the schedule: from [days_before] days before
    the anchor to [days_after] days after it. *)
Definition in_window (a : Args) (now d : datetime) : Prop :=
  datetime_le (shift_days (anchor now) (- days_before a)) d /\
  datetime_lt d (shift_days (anchor now) (days_after a)).

(** Whether [datetime] can hold every day of the window: its first day
    and, when the window is not empty, its last. *)
Definition window_representable (a : Args) (now : datetime) : bool :=
  in_range (first_day a now) &&
  ((days_before a + days_after a <=? 0) ||
   in_range (ordinal now + days_after a - 1)).

(** The number of dates of a schedule on the day of ordinal [o]. *)
Fixpoint commits_on (o : Z) (sched : list datetime) : Z :=
  match sched with
  | [] => 0
  | d :: sched' => (if ordinal d =? o then 1 else 0) + commits_on o sched'
  end.

(** Whether the character [c] occurs in [s]. *)
Fixpoint has_char (c : ascii) (s : string) : bool :=
  match s with
  | EmptyString => false
  | String a s' => Ascii.eqb a c || has_char c s'
  end.

(** Decimal digits, and the number a string of digits denotes. *)
Definition is_digit (c : ascii) : bool :=
  (48 <=? Z.of_nat (nat_of_ascii c)) && (Z.of_nat (nat_of_ascii c) <=? 57).

Fixpoint all_digits (s : string) : bool :=
  match s with
  | EmptyString => true
  | String c s' => is_digit c && all_digits s'
  end.

Fixpoint decimal_from (acc : Z) (s : string) : Z :=
  match s with
  | EmptyString => acc
  | String c s' =>
      decimal_from (10 * acc + (Z.of_nat (nat_of_ascii c) - 48)) s'
  end.

Definition decimal_value (s : string) : Z := decimal_from 0 s.

(** A field of [w] digits that reads [n]. *)
Definition field (w : nat) (n : Z) (s : string) : Prop :=
  String.length s = w /\ all_digits s = true /\ decimal_value s = n.

(** ** Sample inputs *)

Definition args_week : Args :=
  mk_Args true 25 80 None None None 7 1.

Definition now_sample : datetime := mk_datetime 739000 13 45 30 123456.

Definition rng_sample : rng := mk_rng (fun i => Z.of_nat i * 37 + 11) 0.

Definition args_url (url : string) : Args :=
  mk_Args false 10 80 (Some url) None None 365 0.

(** The defaults of [parse_arguments]. *)
Definition args_default : Args :=
  mk_Args false 10 80 None None None 365 0.

(** An environment that refuses nothing and whose commands do nothing. *)
Definition quiet_environment : environment :=
  mk_environment (fun _ _ _ _ => None) (fun _ _ f _ => (f, [])).

Definition world_taken : world :=
  mk_world ["home"]
           {[ ["home"] := Dir; ["home"; "bar-project"] := Dir ]} [] []
           quiet_environment.

Definition repo_sample : GitRepository :=
  mk_GitRepository (args_url "https://example.com/foo/bar-project.git")
                   now_sample "bar-project" [stamp now_sample 738999 0].

Definition world_free : world :=
  mk_world ["home"] {[ ["home"] := Dir ]} [] [] quiet_environment.

Definition args_two_days : Args :=
  mk_Args false 3 80 (Some "https://example.com/foo/bar-project.git")
          (Some "me") None 2 0.

(** ** Vocabulary of the further properties *)

(** Whether the day of ordinal [o] passes the weekend test of the
    synthesizer. *)
Definition weekday_ok (a : Args) (o : Z) : bool :=
  negb (no_weekends a) || ((o + 6) mod 7 <? 5).

(** The plan the synthesizer follows over the days [ns] when it starts from
    the source [g], with the source it leaves behind. *)
Fixpoint plan_from (a : Args) (o0 : Z) (ns : list Z) (g : rng)
    : list (Z * Z) * rng :=
  match ns with
  | [] => ([], g)
  | n :: ns' =>
      if weekday_ok a (o0 + n) then
        if day_draw g <? frequency a then
          let (plan, g') := plan_from a o0 ns' (advance g 3) in
          ((n, day_count a (advance g 1)) :: plan, g')
        else plan_from a o0 ns' (advance g 1)
      else plan_from a o0 ns' g
  end.

(** The source as the outer loop leaves it after the first [n] days of the
    window, that is, as it finds it at the day of index [n]. *)
Definition source_before (a : Args) (now : datetime) (g : rng) (n : Z) : rng :=
  (days_loop a (shift_days (anchor now) (- days_before a)) (range n) [] g).2.

(** The dates of a schedule on the day of ordinal [o]. *)
Definition dates_on (o : Z) (sched : list datetime) : list datetime :=
  List.filter (fun d => ordinal d =? o) sched.

(** The candidate days that pass the weekend test. *)
Definition candidate_days (a : Args) (o0 : Z) (ns : list Z) : list Z :=
  List.filter (fun n => weekday_ok a (o0 + n)) ns.

(** What [_create_and_initialize_repository], one [_contribute] and
    [_setup_remote_repository] hand to [_run_command], in order. *)
Definition init_commands (a : Args) : list (list string) :=
  [["git"; "init"; "-b"; "main"]] ++
  match truthy (user_name a) with
  | Some name => [["git"; "config"; "user.name"; name]]
  | None => []
  end ++
  match truthy (user_email a) with
  | Some email => [["git"; "config"; "user.email"; email]]
  | None => []
  end.

Definition commit_commands (date : datetime) : list (list string) :=
  [["git"; "add"; "."];
   ["git"; "commit"; "-m"; _generate_commit_message date; "--date";
    strftime date (dquote +:+ "%Y-%m-%d %H:%M:%S" +:+ dquote)]].

Definition remote_commands (a : Args) : list (list string) :=
  match truthy (repository a) with
  | Some url =>
      [["git"; "remote"; "add"; "origin"; url];
       ["git"; "branch"; "-M"; "main"];
       ["git"; "push"; "-u"; "origin"; "main"]]
  | None => []
  end.

(** The text the contributions of [dates] add to the tracked file. *)
Fixpoint readme_text (dates : list datetime) : string :=
  match dates with
  | [] => EmptyString
  | date :: dates' =>
      (_generate_commit_message date +:+ newline +:+ newline)
      +:+ readme_text dates'
  end.

(** The text of a file, none when there is no file yet. *)
Definition file_text (o : option node) : string :=
  match o with
  | Some (File content) => content
  | _ => EmptyString
  end.

(** An environment that refuses no call: the names are short enough, the
    permissions are there, [git] is installed. *)
Definition obliging (e : environment) : Prop :=
  forall c d f p, refuses e c d f p = None.

(** An environment whose commands change nothing outside the [.git] of the
    directory they run in. *)
Definition confined_to_git (e : environment) : Prop :=
  forall commands d f p q,
    ~ (d ++ [".git"]) `prefix_of` q ->
    (process e commands d f p).1 !! q = f !! q.

(** The world once a command that starts has run, and once several have,
    one after the other. *)
Definition after_command (commands : list string) (w : world) : world :=
  mk_world (cwd w)
    (process (env w) commands (cwd w) (fs w) (procs w)).1
    (procs w ++ [commands])
    (stdout w ++ (process (env w) commands (cwd w) (fs w) (procs w)).2)
    (env w).

Definition after_commands (cmds : list (list string)) (w : world) : world :=
  fold_left (fun w commands => after_command commands w) cmds w.

(** The path of the tracked file of the directory [d], the world once the
    line of [date] is appended to it, and the commands of a whole run of
    [setup]. *)
Definition readme_path (d : list string) : list string := d ++ ["README.md"].

Definition after_append (date : datetime) (w : world) : world :=
  mk_world (cwd w)
    (<[readme_path (cwd w) :=
         File (file_text (fs w !! readme_path (cwd w)) +:+
               (_generate_commit_message date +:+ newline +:+ newline))]>
       (fs w))
    (procs w) (stdout w) (env w).

Definition all_commands (self : GitRepository) : list (list string) :=
  init_commands (args self)
  ++ flat_map commit_commands (commit_dates self)
  ++ remote_commands (args self).

(** [w'] is reached from [w] by running the commands [l] in the same
    directory: the environment is the same, the output has grown, and when
    the commands are confined to [.git] nothing has changed but the tracked
    file and what lies under [.git]. *)
Definition advances (w w' : world) (l : list (list string)) : Prop :=
  cwd w' = cwd w /\ env w' = env w /\ procs w' = procs w ++ l /\
  stdout w `prefix_of` stdout w' /\
  (confined_to_git (env w) ->
   forall q, q <> readme_path (cwd w) ->
     ~ (cwd w ++ [".git"]) `prefix_of` q -> fs w' !! q = fs w !! q).

(** A part of the driver that runs the commands [cmds] in order and stops
    at the first call that raises. *)
Definition runs (m : SE world unit) (cmds : list (list string)) : Prop :=
  forall w,
    exists l, l `prefix_of` cmds /\ advances w (m w).2 l /\
              ((m w).1 = Ok tt -> l = cmds).

(** What [setup] does once it has entered the target directory. *)
Definition setup_inside (self : GitRepository) : SE world unit :=
  let! _ := for_each (init_commands (args self)) _run_command in
  let! _ := for_each (commit_dates self) _contribute in
  let! _ := for_each (remote_commands (args self)) _run_command in
  print (newline +:+ "Repository generation completed successfully!").

Definition notice : string :=
  newline +:+ "Repository generation completed successfully!".

Definition args_dense : Args :=
  mk_Args true 1 101 None None None 7 0.

Definition args_no_extension : Args :=
  args_url "https://example.com/foo/bar".

(** An environment that refuses nothing, where every command leaves a
    [.git] directory in the directory it runs in and [git init] says so. *)
Definition git_environment : environment :=
  mk_environment (fun _ _ _ _ => None)
    (fun commands d f _ =>
       (<[d ++ [".git"] := Dir]> f,
        match commands with
        | "git" :: "init" :: _ => ["Initialized empty Git repository"]
        | _ => []
        end)).


Definition world_git : world :=
  mk_world ["home"] {[ ["home"] := Dir ]} [] [] git_environment.


(** * The embedding at work *)

Example ord2ymd_samples :
  ord2ymd 1 = (1, 1, 1) /\ ord2ymd 730179 = (2000, 2, 29) /\
  ord2ymd 730180 = (2000, 3, 1) /\ ord2ymd 739000 = (2024, 4, 24) /\
  ord2ymd 3652059 = (9999, 12, 31).
Proof. repeat split; reflexivity. Qed.

(** 2024-04-24 was a Wednesday. *)
Example weekday_sample : weekday now_sample = 2.
Proof. reflexivity. Qed.

Example rfind_slice_samples :
  rfind "a/b/c" "/" = 3 /\ rfind "abc" "/" = -1 /\
  slice "abcdef" 2 (-1) = "cde" /\ slice "abcdef" 4 2 = EmptyString /\
  slice "abcdef" 2 100 = "cdef".
Proof. repeat split; reflexivity. Qed.

Example strftime_samples :
  _generate_commit_message now_sample = "Contribution: 2024-04-24 13:45" /\
  strftime now_sample (dquote +:+ "%Y-%m-%d %H:%M:%S" +:+ dquote)
  = dquote +:+ "2024-04-24 13:45:30" +:+ dquote.
Proof. split; reflexivity. Qed.

(** A window that starts before the year 1 cannot be computed. *)
Example generate_overflow :
  (_generate_commit_dates (mk_Args false 10 80 None None None 739000 0)
     now_sample rng_sample).1 = Raise OverflowError.
Proof. reflexivity. Qed.

Example generate_two_days :
  (_generate_commit_dates args_two_days now_sample rng_sample).1 =
  Ok [stamp now_sample 738998 0; stamp now_sample 738999 0].
Proof. vm_compute. reflexivity. Qed.

(** A whole run in a directory that is free: the repository is created,
    each date gives one line of the file and one commit, the remote is set
    up and the notice is printed. *)
Example main_two_days :
  let (r, w) := main args_two_days now_sample rng_sample world_free in
  r = Ok tt /\
  cwd w = ["home"; "bar-project"] /\
  fs w !! ["home"; "bar-project"; "README.md"] =
    Some (File ("Contribution: 2024-04-22 20:00" +:+ newline +:+ newline +:+
                "Contribution: 2024-04-23 20:00" +:+ newline +:+ newline)) /\
  procs w =
    [["git"; "init"; "-b"; "main"];
     ["git"; "config"; "user.name"; "me"];
     ["git"; "add"; "."];
     ["git"; "commit"; "-m"; "Contribution: 2024-04-22 20:00"; "--date";
      dquote +:+ "2024-04-22 20:00:30" +:+ dquote];
     ["git"; "add"; "."];
     ["git"; "commit"; "-m"; "Contribution: 2024-04-23 20:00"; "--date";
      dquote +:+ "2024-04-23 20:00:30" +:+ dquote];
     ["git"; "remote"; "add"; "origin";
      "https://example.com/foo/bar-project.git"];
     ["git"; "branch"; "-M"; "main"];
     ["git"; "push"; "-u"; "origin"; "main"]] /\
  stdout w = [newline +:+ "Repository generation completed successfully!"].
Proof. vm_compute. repeat split; reflexivity. Qed.

(** * Properties *)

(** ** Arithmetic of [datetime] and [timedelta] *)


Lemma new_timedelta_normal days seconds microseconds :
  0 <= seconds < 86400 -> 0 <= microseconds < 1000000 ->
  new_timedelta days seconds microseconds =
  if 999999999 <? Z.abs days then Raise OverflowError
  else Ok (mk_timedelta days seconds microseconds).
Proof.
  intros Hs Hu. unfold new_timedelta.
  rewrite (Z.div_small microseconds), (Z.mod_small microseconds) by lia.
  rewrite Z.add_0_r, (Z.div_small seconds), (Z.mod_small seconds) by lia.
  now rewrite Z.add_0_r.
Qed.

Lemma time_of_day_fields h m s :
  0 <= h < 24 -> 0 <= m < 60 -> 0 <= s < 60 ->
  let t := h * 3600 + m * 60 + s in
  0 <= t < 86400 /\ t / 3600 = h /\ (t mod 3600) / 60 = m /\
  (t mod 3600) mod 60 = s.
Proof.
  intros Hh Hm Hs t. subst t.
  repeat split; try lia; Z.to_euclidean_division_equations; lia.
Qed.

(** An addition that does not carry into the next day raises exactly when
    the day leaves the range of [datetime]. *)
Lemma datetime_add_within d days seconds :
  valid_datetime d -> Z.abs days <= 999999999 ->
  0 <= seconds -> time_of_day d + seconds < 86400 ->
  datetime_add d (mk_timedelta days seconds 0) =
  if in_range (ordinal d + days) then
    Ok {| ordinal := ordinal d + days;
          hour := (time_of_day d + seconds) / 3600;
          minute := ((time_of_day d + seconds) mod 3600) / 60;
          second := ((time_of_day d + seconds) mod 3600) mod 60;
          microsecond := microsecond d |}
  else Raise OverflowError.
Proof.
  intros (Ho & Hh & Hm & Hs & Hu) Hd Hsec Hday. unfold MAXORDINAL in Ho.
  destruct (time_of_day_fields _ _ _ Hh Hm Hs) as (Ht & _).
  unfold time_of_day in *. unfold datetime_add.
  rewrite new_timedelta_normal by lia.
  replace (999999999 <? Z.abs (ordinal d)) with false
    by (symmetry; apply Z.ltb_ge; lia).
  cbn [rbind td_days td_seconds td_microseconds].
  rewrite new_timedelta_normal by lia.
  unfold in_range, MAXORDINAL.
  destruct (999999999 <? Z.abs (ordinal d + days)) eqn:Ea;
    cbn [rbind td_days td_seconds td_microseconds].
  - apply Z.ltb_lt in Ea.
    replace ((1 <=? ordinal d + days) && (ordinal d + days <=? 3652059))
      with false; [reflexivity|].
    symmetry. apply andb_false_iff. rewrite Z.leb_gt, Z.leb_gt. lia.
  - replace (0 <? ordinal d + days) with (1 <=? ordinal d + days)
      by (apply eq_true_iff_eq; rewrite Z.leb_le, Z.ltb_lt; lia).
    now rewrite Z.add_0_r.
Qed.

Lemma in_range_far o n :
  1 <= o <= MAXORDINAL -> 999999999 < Z.abs n -> in_range (o + n) = false.
Proof.
  unfold in_range, MAXORDINAL. intros Ho Hn.
  apply andb_false_iff. rewrite Z.leb_gt, Z.leb_gt. lia.
Qed.

(** Adding [n] whole days keeps the time of day. *)
Lemma datetime_add_days d n :
  valid_datetime d ->
  (let? t := timedelta_of n 0 in datetime_add d t) =
  if in_range (ordinal d + n) then Ok (shift_days d n)
  else Raise OverflowError.
Proof.
  intros Hv. pose proof Hv as (Ho & Hh & Hm & Hs & Hu).
  destruct (time_of_day_fields _ _ _ Hh Hm Hs) as (Ht & E1 & E2 & E3).
  unfold timedelta_of. rewrite new_timedelta_normal by lia.
  destruct (999999999 <? Z.abs n) eqn:En; cbn [rbind].
  - apply Z.ltb_lt in En. now rewrite in_range_far.
  - apply Z.ltb_ge in En.
    rewrite datetime_add_within;
      [|assumption|unfold time_of_day; simpl in *; lia..].
    unfold time_of_day, shift_days. now rewrite Z.add_0_r, E1, E2, E3.
Qed.

(** Subtracting [n] whole days is adding [-n]. *)
Lemma datetime_sub_days d n :
  valid_datetime d ->
  (let? t := timedelta_of n 0 in datetime_sub d t) =
  if in_range (ordinal d - n) then Ok (shift_days d (- n))
  else Raise OverflowError.
Proof.
  intros Hv. pose proof Hv as (Ho & Hh & Hm & Hs & Hu).
  destruct (time_of_day_fields _ _ _ Hh Hm Hs) as (Ht & E1 & E2 & E3).
  unfold timedelta_of, datetime_sub, timedelta_neg.
  rewrite new_timedelta_normal by lia.
  replace (ordinal d - n) with (ordinal d + - n) by lia.
  destruct (999999999 <? Z.abs n) eqn:En; cbn [rbind].
  - apply Z.ltb_lt in En. rewrite in_range_far; [reflexivity|lia|lia].
  - apply Z.ltb_ge in En.
    cbn [td_days td_seconds td_microseconds].
    rewrite new_timedelta_normal by (simpl; lia).
    rewrite Z.abs_opp.
    replace (999999999 <? Z.abs n) with false
      by (symmetry; apply Z.ltb_ge; lia).
    cbn [rbind]. change (- 0) with 0.
    rewrite datetime_add_within;
      [|assumption|unfold time_of_day; simpl in *; lia..].
    unfold time_of_day, shift_days. now rewrite Z.add_0_r, E1, E2, E3.
Qed.

(** At 20:00 and some seconds, fewer than twenty minutes more stay within
    the day. *)
Lemma datetime_add_minutes o s us m :
  1 <= o <= MAXORDINAL -> 0 <= s < 60 -> 0 <= us < 1000000 -> 0 <= m < 20 ->
  (let? t := timedelta_of 0 m in datetime_add (mk_datetime o 20 0 s us) t) =
  Ok (mk_datetime o 20 m s us).
Proof.
  intros Ho Hs Hu Hm.
  assert (Hv : valid_datetime (mk_datetime o 20 0 s us))
    by (unfold valid_datetime; simpl; lia).
  unfold timedelta_of. rewrite new_timedelta_normal by lia.
  change (999999999 <? Z.abs 0) with false. cbn [rbind].
  rewrite datetime_add_within;
    [|assumption|unfold time_of_day; simpl; lia..].
  unfold time_of_day, in_range. cbn [ordinal hour minute second microsecond].
  replace ((1 <=? o + 0) && (o + 0 <=? MAXORDINAL)) with true
    by (symmetry; apply andb_true_iff; rewrite !Z.leb_le; lia).
  f_equal. f_equal; Z.to_euclidean_division_equations; lia.
Qed.

(** ** The random source *)

Lemma randint_value_bounds a b r :
  a <= b -> a <= randint_value a b r <= b.
Proof.
  intros Hab. unfold randint_value.
  pose proof (Z.mod_pos_bound r (b - a + 1)). lia.
Qed.

(** Every value of the range is returned, for exactly one residue. *)
Lemma randint_value_onto a b v :
  a <= v <= b -> randint_value a b (v - a) = v.
Proof.
  intros Hv. unfold randint_value. rewrite Z.mod_small; lia.
Qed.

Lemma randint_value_inj a b r r' :
  0 <= r <= b - a -> 0 <= r' <= b - a ->
  randint_value a b r = randint_value a b r' -> r = r'.
Proof.
  unfold randint_value. intros Hr Hr'.
  rewrite !Z.mod_small by lia. lia.
Qed.

Lemma randint_eq a b g :
  a <= b ->
  randint a b g = (Ok (randint_value a b (draw g 0)), advance g 1).
Proof.
  intros Hab. unfold randint, draw, advance.
  replace (b <? a) with false by (symmetry; apply Z.ltb_ge; lia).
  now rewrite Nat.add_0_r, Nat.add_1_r.
Qed.

Lemma advance_advance g i j : advance (advance g i) j = advance g (i + j).
Proof. unfold advance. simpl. f_equal. lia. Qed.

Lemma draw_advance g i j : draw (advance g i) j = draw g (i + j).
Proof. unfold draw, advance. simpl. f_equal. lia. Qed.

Lemma clamp_bounds mc : 1 <= clamp mc <= 20.
Proof. unfold clamp. lia. Qed.

(** ** One day of the schedule *)

Section OneDay.

Variable a : Args.
Variable now : datetime.
Hypothesis now_valid : valid_datetime now.

Lemma stamp_valid o m :
  in_range o = true -> 0 <= m < 60 -> valid_datetime (stamp now o m).
Proof.
  unfold in_range. intros Ho Hm. apply andb_true_iff in Ho.
  rewrite !Z.leb_le in Ho.
  destruct now_valid as (_ & _ & _ & Hs & Hu).
  unfold valid_datetime, stamp. simpl. lia.
Qed.

Lemma append_commit_times_eq o ms acc g :
  in_range o = true -> Forall (fun m => 0 <= m < 20) ms ->
  append_commit_times (stamp now o 0) ms acc g =
  (Ok (acc ++ map (stamp now o) ms), g).
Proof.
  intros Ho Hms. revert acc. induction Hms as [|m ms Hm _ IH]; intros acc.
  - simpl. unfold ret. now rewrite app_nil_r.
  - cbn [append_commit_times]. unfold bind, lift at 1.
    unfold stamp at 1. rewrite datetime_add_minutes.
    + fold (stamp now o m). rewrite IH. now rewrite <- app_assoc.
    + unfold in_range in Ho. apply andb_true_iff in Ho.
      rewrite !Z.leb_le in Ho. lia.
    + apply now_valid.
    + apply now_valid.
    + exact Hm.
Qed.

Lemma day_bound_bounds g : 1 <= day_bound a g <= clamp (max_commits a).
Proof. apply randint_value_bounds. pose proof (clamp_bounds (max_commits a)). lia. Qed.

Lemma day_count_bounds g : 1 <= day_count a g <= day_bound a g.
Proof. apply randint_value_bounds. pose proof (day_bound_bounds g). lia. Qed.

Lemma day_commits_eq o acc g :
  in_range o = true ->
  day_commits a (stamp now o 0) acc g =
  (Ok (acc ++ day_block now o (day_count a g)), advance g 2).
Proof.
  intros Ho. unfold day_commits, _contributions_per_day, bind.
  fold (clamp (max_commits a)).
  pose proof (clamp_bounds (max_commits a)) as Hc.
  rewrite randint_eq by lia. fold (day_bound a g).
  pose proof (day_bound_bounds g) as Hb.
  rewrite randint_eq by lia. rewrite draw_advance. simpl Nat.add.
  fold (day_count a g). pose proof (day_count_bounds g) as Hk.
  rewrite append_commit_times_eq.
  - now rewrite advance_advance.
  - exact Ho.
  - unfold range. apply Forall_seqZ. intros m Hm. lia.
Qed.

Lemma day_included_eq o g :
  day_included a (stamp now o 0) g =
  if negb (no_weekends a) || ((o + 6) mod 7 <? 5)
  then (Ok (day_draw g <? frequency a), advance g 1)
  else (Ok false, g).
Proof.
  unfold day_included, weekday. cbn [stamp ordinal].
  destruct (negb (no_weekends a) || ((o + 6) mod 7 <? 5)); [|reflexivity].
  unfold bind. now rewrite randint_eq by lia.
Qed.

Lemma day_step_eq o acc g :
  in_range o = true ->
  day_step a (stamp now o 0) acc g =
  if (negb (no_weekends a) || ((o + 6) mod 7 <? 5))
     && (day_draw g <? frequency a)
  then (Ok (acc ++ day_block now o (day_count a (advance g 1))), advance g 3)
  else (Ok acc,
        if negb (no_weekends a) || ((o + 6) mod 7 <? 5)
        then advance g 1 else g).
Proof.
  intros Ho. unfold day_step, bind. rewrite day_included_eq.
  destruct (negb (no_weekends a) || ((o + 6) mod 7 <? 5)); [|reflexivity].
  cbn [andb]. destruct (day_draw g <? frequency a); [|reflexivity].
  rewrite day_commits_eq by exact Ho. now rewrite advance_advance.
Qed.

End OneDay.

(** ** The whole schedule *)

Section Schedule.

Variable a : Args.
Variable now : datetime.
Hypothesis now_valid : valid_datetime now.

Lemma shift_stamp o n : shift_days (stamp now o 0) n = stamp now (o + n) 0.
Proof. reflexivity. Qed.

(** The outer loop either follows a plan over the days it was given, or
    raises [OverflowError] at a day outside the range of [datetime]. *)
Lemma days_loop_cases o0 ns acc g :
  in_range o0 = true ->
  match days_loop a (stamp now o0 0) ns acc g with
  | (Ok res, _) =>
      exists plan,
        res = acc ++ schedule_of now o0 plan /\
        sublist (map fst plan) ns /\
        Forall (plan_ok a o0) plan /\
        Forall (fun n => in_range (o0 + n) = true) ns
  | (Raise e, _) =>
      e = OverflowError /\ Exists (fun n => in_range (o0 + n) = false) ns
  end.
Proof.
  intros Ho0. revert acc g. induction ns as [|n ns IH]; intros acc g.
  - simpl. exists []. simpl. rewrite app_nil_r.
    repeat split; constructor.
  - cbn [days_loop]. unfold bind at 1, lift at 1.
    rewrite datetime_add_days by (apply stamp_valid; [exact now_valid|exact Ho0|lia]).
    cbn [stamp ordinal]. destruct (in_range (o0 + n)) eqn:Hn.
    + rewrite shift_stamp. unfold bind at 1.
      rewrite (day_step_eq a now now_valid) by exact Hn.
      destruct ((negb (no_weekends a) || ((o0 + n + 6) mod 7 <? 5))
                && (day_draw g <? frequency a)) eqn:Hinc.
      * specialize (IH (acc ++ day_block now (o0 + n)
                                 (day_count a (advance g 1))) (advance g 3)).
        destruct (days_loop a (stamp now o0 0) ns _ (advance g 3))
          as [[res|e] g'].
        -- destruct IH as (plan & -> & Hsub & Hok & Hns).
           exists ((n, day_count a (advance g 1)) :: plan).
           repeat split.
           ++ simpl. now rewrite <- app_assoc.
           ++ simpl. now constructor.
           ++ constructor; [|exact Hok].
              apply andb_true_iff in Hinc. destruct Hinc as [Hwk Hfr].
              apply Z.ltb_lt in Hfr.
              pose proof (day_bound_bounds a (advance g 1)) as Hb.
              pose proof (day_count_bounds a (advance g 1)) as Hk.
              assert (Hd : 0 <= day_draw g)
                by (apply (randint_value_bounds 0 100); lia).
              unfold plan_ok. simpl. repeat split; try lia; try exact Hn.
              intros Hnw. rewrite Hnw in Hwk. simpl in Hwk.
              now apply Z.ltb_lt in Hwk.
           ++ now constructor.
        -- destruct IH as [-> Hex]. split; [reflexivity|now right].
      * match goal with
        | |- context [days_loop a _ ns acc ?g1] =>
            specialize (IH acc g1);
            destruct (days_loop a (stamp now o0 0) ns acc g1) as [[res|e] g']
        end.
        -- destruct IH as (plan & -> & Hsub & Hok & Hns).
           exists plan. repeat split; try assumption.
           ++ now apply sublist_cons_r; left.
           ++ now constructor.
        -- destruct IH as [-> Hex]. split; [reflexivity|now right].
    + split; [reflexivity|]. now left.
Qed.

Lemma anchor_valid : valid_datetime (anchor now).
Proof.
  destruct now_valid as (Ho & Hh & Hm & Hs & Hu).
  unfold valid_datetime, anchor, replace. simpl. lia.
Qed.

(** [_generate_commit_dates] follows a plan over the days of the window, or
    raises [OverflowError] when the window leaves the range of [datetime]. *)
Lemma generate_cases g :
  match _generate_commit_dates a now g with
  | (Ok sched, _) =>
      exists plan,
        sched = schedule_of now (first_day a now) plan /\
        sublist (map fst plan) (range (days_before a + days_after a)) /\
        Forall (plan_ok a (first_day a now)) plan /\
        in_range (first_day a now) = true /\
        Forall (fun n => in_range ((first_day a now) + n) = true)
               (range (days_before a + days_after a))
  | (Raise e, _) =>
      e = OverflowError /\
      (in_range (first_day a now) = false \/
       Exists (fun n => in_range ((first_day a now) + n) = false)
              (range (days_before a + days_after a)))
  end.
Proof.
  unfold _generate_commit_dates, bind at 1, lift.
  rewrite datetime_sub_days by exact anchor_valid.
  change (ordinal (anchor now) - days_before a) with (first_day a now).
  destruct (in_range (first_day a now)) eqn:Ho0.
  - change (shift_days (anchor now) (- days_before a))
      with (stamp now (ordinal now + - days_before a) 0).
    replace (ordinal now + - days_before a) with (first_day a now)
      by (unfold first_day; lia).
    pose proof (days_loop_cases (first_day a now)
                  (range (days_before a + days_after a)) [] g Ho0) as H.
    destruct (days_loop a (stamp now (first_day a now) 0) _ [] g) as [[res|e] g'].
    + destruct H as (plan & -> & Hsub & Hok & Hns).
      exists plan. repeat split; assumption.
    + destruct H as [-> Hex]. split; [reflexivity|now right].
  - split; [reflexivity|now left].
Qed.

End Schedule.

(** ** Plans and the schedules they stand for *)

Lemma range_In n N : In n (range N) <-> 0 <= n < N.
Proof.
  unfold range. rewrite <- list_elem_of_In, elem_of_seqZ. lia.
Qed.

Lemma seqZ_sorted m n : StronglySorted Z.lt (seqZ m n).
Proof.
  destruct (Z.le_gt_cases n 0) as [Hn|Hn].
  - rewrite seqZ_nil by lia. constructor.
  - rewrite <- (Z2Nat.id n) by lia. generalize (Z.to_nat n) as k. clear.
    intros k. revert m. induction k as [|k IH]; intros m.
    + rewrite seqZ_nil by lia. constructor.
    + rewrite seqZ_cons by lia.
      replace (Z.pred (Z.of_nat (S k))) with (Z.of_nat k) by lia.
      constructor; [apply IH|].
      apply Forall_seqZ. intros. lia.
Qed.

Lemma sublist_sorted {A} (R : A -> A -> Prop) (l k : list A) :
  sublist l k -> StronglySorted R k -> StronglySorted R l.
Proof.
  induction 1 as [|x l k Hs IH|x l k Hs IH]; intros Hk.
  - constructor.
  - apply StronglySorted_cons in Hk as [Hx Hk].
    constructor; [now apply IH|].
    rewrite Forall_forall in *. intros y Hy. apply Hx.
    now apply (sublist_subseteq _ _ Hs).
  - apply StronglySorted_cons in Hk as [_ Hk]. now apply IH.
Qed.

(** The days of a plan over [range N] are distinct, increasing and within
    the window. *)
Lemma plan_days_sorted (plan : list (Z * Z)) N :
  sublist (map fst plan) (range N) ->
  StronglySorted Z.lt (map fst plan) /\
  Forall (fun nk => 0 <= nk.1 < N) plan.
Proof.
  intros Hs. split.
  - apply (sublist_sorted _ _ _ Hs), seqZ_sorted.
  - apply Forall_forall. intros [n k] Hin. simpl.
    apply range_In, list_elem_of_In, (sublist_subseteq _ _ Hs).
    apply list_elem_of_In, in_map_iff. exists (n, k).
    split; [reflexivity|now apply list_elem_of_In].
Qed.

Lemma day_block_In now o k d :
  In d (day_block now o k) <-> exists m, 0 <= m < k /\ d = stamp now o m.
Proof.
  unfold day_block. rewrite in_map_iff. split.
  - intros (m & <- & Hm). exists m. now rewrite range_In in Hm.
  - intros (m & Hm & ->). exists m. now rewrite range_In.
Qed.

Lemma day_block_length now o k :
  0 <= k -> Z.of_nat (length (day_block now o k)) = k.
Proof.
  intros Hk. unfold day_block, range.
  rewrite length_map, length_seqZ. lia.
Qed.

Lemma schedule_of_In now o0 plan d :
  In d (schedule_of now o0 plan) <->
  exists n k m, In (n, k) plan /\ 0 <= m < k /\ d = stamp now (o0 + n) m.
Proof.
  unfold schedule_of. rewrite in_flat_map. split.
  - intros ([n k] & Hin & Hd). apply day_block_In in Hd as (m & Hm & ->).
    now exists n, k, m.
  - intros (n & k & m & Hin & Hm & ->). exists (n, k). split; [exact Hin|].
    apply day_block_In. now exists m.
Qed.

Lemma stamp_lt_minute now o m m' :
  m < m' -> datetime_lt (stamp now o m) (stamp now o m').
Proof.
  intros H. unfold datetime_lt, datetime_ltb, stamp. simpl.
  rewrite Z.ltb_irrefl, !Z.eqb_refl. simpl.
  replace (m <? m') with true by (symmetry; now apply Z.ltb_lt).
  reflexivity.
Qed.

Lemma stamp_lt_day now o o' m m' :
  o < o' -> datetime_lt (stamp now o m) (stamp now o' m').
Proof.
  intros H. unfold datetime_lt, datetime_ltb, stamp. simpl.
  replace (o <? o') with true by (symmetry; now apply Z.ltb_lt).
  reflexivity.
Qed.

Lemma day_block_sorted now o k :
  StronglySorted datetime_lt (day_block now o k).
Proof.
  unfold day_block, range. generalize (seqZ_sorted 0 k).
  induction 1 as [|m ms Hs IH Hm]; simpl; constructor.
  - exact IH.
  - apply Forall_map. eapply Forall_impl; [exact Hm|].
    intros m'. apply stamp_lt_minute.
Qed.

(** A plan with increasing days stands for an increasing schedule. *)
Lemma schedule_of_sorted now o0 plan :
  StronglySorted Z.lt (map fst plan) ->
  StronglySorted datetime_lt (schedule_of now o0 plan).
Proof.
  induction plan as [|[n k] plan IH]; simpl; intros Hs.
  - constructor.
  - apply StronglySorted_cons in Hs as [Hn Hs].
    apply StronglySorted_app. split; [|split].
    + intros x y Hx Hy.
      apply list_elem_of_In, day_block_In in Hx as (m & _ & ->).
      apply list_elem_of_In, schedule_of_In in Hy
        as (n' & k' & m' & Hin & _ & ->).
      apply stamp_lt_day.
      rewrite Forall_forall in Hn.
      assert (n < n'); [|lia].
      apply Hn, list_elem_of_In, in_map_iff. now exists (n', k').
    + apply day_block_sorted.
    + now apply IH.
Qed.

Lemma commits_on_app o s1 s2 :
  commits_on o (s1 ++ s2) = commits_on o s1 + commits_on o s2.
Proof. induction s1 as [|d s1 IH]; simpl; lia. Qed.

Lemma commits_on_day_block now o o' k :
  0 <= k -> commits_on o (day_block now o' k) = if o' =? o then k else 0.
Proof.
  intros Hk. rewrite <- (day_block_length now o' k Hk) at 2.
  unfold day_block. generalize (range k) as ms.
  induction ms as [|m ms IH]; simpl.
  - now destruct (o' =? o).
  - rewrite IH. destruct (o' =? o); lia.
Qed.

Lemma commits_on_none now o0 o plan :
  Forall (fun nk => o0 + nk.1 <> o /\ 0 <= nk.2) plan ->
  commits_on o (schedule_of now o0 plan) = 0.
Proof.
  induction 1 as [|[n k] plan [Hn Hk] _ IH]; simpl; [reflexivity|].
  simpl in Hn, Hk.
  rewrite commits_on_app, commits_on_day_block, IH by exact Hk.
  replace (o0 + n =? o) with false by (symmetry; now apply Z.eqb_neq).
  reflexivity.
Qed.

(** With distinct days in the plan, the dates of a day are those of one
    entry at most. *)
Lemma commits_on_schedule now o0 o plan c :
  StronglySorted Z.lt (map fst plan) ->
  Forall (fun nk => 1 <= nk.2 <= c) plan ->
  commits_on o (schedule_of now o0 plan) = 0 \/
  1 <= commits_on o (schedule_of now o0 plan) <= c.
Proof.
  induction plan as [|[n k] plan IH]; simpl; intros Hs Hk.
  - now left.
  - apply StronglySorted_cons in Hs as [Hn Hs].
    apply Forall_cons in Hk as [Hk Hks]. simpl in Hk.
    rewrite commits_on_app, commits_on_day_block by lia.
    destruct (o0 + n =? o) eqn:E.
    + apply Z.eqb_eq in E. right.
      rewrite commits_on_none; [lia|].
      rewrite Forall_forall in Hn. rewrite Forall_forall in Hks.
      apply Forall_forall. intros [n' k'] Hin. simpl. split.
      * assert (n < n'); [|lia].
        apply Hn, list_elem_of_In, in_map_iff. exists (n', k').
        split; [reflexivity|now apply list_elem_of_In].
      * specialize (Hks _ Hin). simpl in Hks. lia.
    + simpl. now apply IH.
Qed.

(** ** The synthesizer follows a plan *)

Ltac compare_fields :=
  repeat match goal with
         | |- context [?x <? ?y] => destruct (Z.ltb_spec x y)
         | |- context [?x =? ?y] => destruct (Z.eqb_spec x y)
         end;
  simpl; try reflexivity; try lia.

Lemma datetime_ltb_key x y :
  valid_datetime x -> valid_datetime y ->
  datetime_ltb x y = (datetime_key x <? datetime_key y).
Proof.
  intros (_ & Hh & Hm & Hs & Hu) (_ & Hh' & Hm' & Hs' & Hu').
  unfold datetime_ltb, datetime_key.
  destruct (Z.ltb_spec
    ((((ordinal x * 24 + hour x) * 60 + minute x) * 60 + second x) * 1000000
       + microsecond x)
    ((((ordinal y * 24 + hour y) * 60 + minute y) * 60 + second y) * 1000000
       + microsecond y)); compare_fields.
Qed.

Section Plan.

Variable a : Args.
Variable now : datetime.
Hypothesis now_valid : valid_datetime now.

Lemma in_range_between o n N :
  in_range o = true -> in_range (o + N - 1) = true -> 0 <= n < N ->
  in_range (o + n) = true.
Proof.
  unfold in_range. rewrite !andb_true_iff, !Z.leb_le. lia.
Qed.

Lemma window_representable_iff :
  window_representable a now = true <->
  in_range (first_day a now) = true /\
  Forall (fun n => in_range (first_day a now + n) = true)
         (range (days_before a + days_after a)).
Proof.
  unfold window_representable, first_day.
  rewrite andb_true_iff, orb_true_iff, Z.leb_le. split.
  - intros [H0 HN]. split; [exact H0|].
    apply Forall_forall. intros n Hn.
    apply list_elem_of_In, range_In in Hn. destruct HN as [HN|HN]; [lia|].
    apply (in_range_between _ _ (days_before a + days_after a)); try lia.
    + exact H0.
    + now replace (ordinal now - days_before a
                   + (days_before a + days_after a) - 1)
        with (ordinal now + days_after a - 1) by lia.
  - intros [H0 HN]. split; [exact H0|].
    destruct (Z.le_gt_cases (days_before a + days_after a) 0) as [Hle|Hgt];
      [now left|right].
    rewrite Forall_forall in HN.
    replace (ordinal now + days_after a - 1)
      with (ordinal now - days_before a
            + (days_before a + days_after a - 1)) by lia.
    apply HN, list_elem_of_In, range_In. lia.
Qed.

(** [_generate_commit_dates] returns the schedule of a plan whose days are
    increasing and within the window, or raises [OverflowError]; it raises
    exactly when [datetime] cannot hold the window. *)
Lemma generate_plan g :
  match (_generate_commit_dates a now g).1 with
  | Ok sched =>
      exists plan,
        sched = schedule_of now (first_day a now) plan /\
        StronglySorted Z.lt (map fst plan) /\
        Forall (fun nk => 0 <= nk.1 < days_before a + days_after a) plan /\
        Forall (plan_ok a (first_day a now)) plan /\
        window_representable a now = true
  | Raise e => e = OverflowError /\ window_representable a now = false
  end.
Proof.
  pose proof (generate_cases a now now_valid g) as H.
  destruct (_generate_commit_dates a now g) as [[sched|e] g']; simpl.
  - destruct H as (plan & -> & Hsub & Hok & H0 & HN).
    destruct (plan_days_sorted _ _ Hsub) as [Hs Hw].
    exists plan. repeat split; try assumption.
    now apply window_representable_iff.
  - destruct H as [-> H]. split; [reflexivity|].
    apply not_true_is_false. intros Hw.
    apply window_representable_iff in Hw as [H0 HN].
    destruct H as [H|H]; [congruence|].
    apply Exists_exists in H as (n & Hn & Hf).
    rewrite Forall_forall in HN. specialize (HN n Hn). congruence.
Qed.

(** The anchor plus [n] days and [m] minutes, as [datetime] computes it. *)
Lemma anchor_plus n m :
  in_range (ordinal now + n) = true -> 0 <= m < 20 ->
  (let? t := timedelta_of n m in datetime_add (anchor now) t) =
  Ok (stamp now (ordinal now + n) m).
Proof.
  intros Hn Hm. pose proof now_valid as (Ho & Hh & Hmi & Hs & Hu).
  pose proof Hn as Hn'. unfold in_range in Hn'.
  apply andb_true_iff in Hn'. rewrite !Z.leb_le in Hn'.
  unfold MAXORDINAL in *.
  unfold timedelta_of. rewrite new_timedelta_normal by lia.
  replace (999999999 <? Z.abs n) with false
    by (symmetry; apply Z.ltb_ge; lia).
  cbn [rbind].
  rewrite datetime_add_within;
    [|apply anchor_valid, now_valid
     |unfold time_of_day, anchor, replace; simpl; lia..].
  change (ordinal (anchor now)) with (ordinal now). rewrite Hn.
  unfold time_of_day, anchor, replace, stamp.
  cbn [ordinal hour minute second microsecond].
  f_equal. f_equal; Z.to_euclidean_division_equations; lia.
Qed.

End Plan.

(** ** The commit schedule *)

(** C1. Every commit date the synthesizer produces lies in the half-open
    window from [days_before] days before the anchor to [days_after] days
    after it, the anchor being the current time with hour 20 and minute 0:
    it is the anchor plus [n] days plus [m] minutes for some [n] of
    [-days_before .. days_after - 1] and some [m] of [0 .. 19].  The
    synthesizer returns a schedule unless [datetime] cannot hold the window,
    and then it raises [OverflowError]. *)
Theorem commit_dates_in_window (a : Args) (now : datetime) (g : rng) :
  valid_datetime now ->
  match (_generate_commit_dates a now g).1 with
  | Ok sched =>
      Forall (fun d =>
                in_window a now d /\
                exists n m,
                  - days_before a <= n < days_after a /\ 0 <= m < 20 /\
                  (let? t := timedelta_of n m in datetime_add (anchor now) t)
                  = Ok d) sched
  | Raise e => e = OverflowError /\ window_representable a now = false
  end.
Proof.
  intros Hv. pose proof (generate_plan a now Hv g) as H.
  destruct (_generate_commit_dates a now g).1 as [sched|e]; [|exact H].
  destruct H as (plan & -> & _ & Hw & Hok & _).
  apply Forall_forall. intros d Hd.
  apply list_elem_of_In, schedule_of_In in Hd as (n & k & m & Hin & Hm & ->).
  rewrite Forall_forall in Hw. rewrite Forall_forall in Hok.
  apply list_elem_of_In in Hin.
  specialize (Hw _ Hin). specialize (Hok _ Hin).
  destruct Hok as (Hr & Hk & _). simpl in Hw, Hr, Hk.
  pose proof (clamp_bounds (max_commits a)) as Hc.
  unfold first_day in *. split; [split|].
  - unfold datetime_le, datetime_ltb, shift_days, anchor, replace, stamp.
    cbn [ordinal hour minute second microsecond]. compare_fields.
  - change (shift_days (anchor now) (days_after a))
      with (stamp now (ordinal now + days_after a) 0).
    apply stamp_lt_day. lia.
  - exists (n - days_before a), m. split; [lia|]. split; [lia|].
    replace (ordinal now - days_before a + n)
      with (ordinal now + (n - days_before a)) in * by lia.
    apply anchor_plus; [exact Hv|exact Hr|lia].
Qed.

Lemma now_sample_valid : valid_datetime now_sample.
Proof. unfold valid_datetime, MAXORDINAL. simpl. lia. Qed.

Lemma commit_dates_in_window_witness :
  valid_datetime now_sample /\
  match (_generate_commit_dates args_week now_sample rng_sample).1 with
  | Ok sched =>
      Forall (fun d =>
                in_window args_week now_sample d /\
                exists n m,
                  - days_before args_week <= n < days_after args_week /\
                  0 <= m < 20 /\
                  (let? t := timedelta_of n m in
                   datetime_add (anchor now_sample) t) = Ok d) sched
  | Raise e =>
      e = OverflowError /\ window_representable args_week now_sample = false
  end.
Proof.
  split; [exact now_sample_valid|].
  apply (commit_dates_in_window args_week now_sample rng_sample).
  exact now_sample_valid.
Defined.

(** C7. The schedule is strictly increasing in time: every date is before
    every date that follows it, by [datetime]'s own order, which on the
    schedule is the order of the instants. *)
Theorem schedule_strictly_increasing (a : Args) (now : datetime) (g : rng) :
  valid_datetime now ->
  match (_generate_commit_dates a now g).1 with
  | Ok sched =>
      StronglySorted datetime_lt sched /\
      StronglySorted (fun x y => datetime_key x < datetime_key y) sched
  | Raise e => e = OverflowError /\ window_representable a now = false
  end.
Proof.
  intros Hv. pose proof (generate_plan a now Hv g) as H.
  destruct (_generate_commit_dates a now g).1 as [sched|e]; [|exact H].
  destruct H as (plan & -> & Hs & _ & Hok & _).
  assert (Hsorted : StronglySorted datetime_lt
                      (schedule_of now (first_day a now) plan))
    by now apply schedule_of_sorted.
  split; [exact Hsorted|].
  assert (Hvalid : Forall valid_datetime
                     (schedule_of now (first_day a now) plan)).
  { apply Forall_forall. intros d Hd.
    apply list_elem_of_In, schedule_of_In in Hd
      as (n & k & m & Hin & Hm & ->).
    rewrite Forall_forall in Hok. apply list_elem_of_In in Hin.
    destruct (Hok _ Hin) as (Hr & Hk & _). simpl in Hr, Hk.
    pose proof (clamp_bounds (max_commits a)).
    apply stamp_valid; [exact Hv|exact Hr|lia]. }
  revert Hvalid. induction Hsorted as [|d l Hl IH Hd]; intros Hvalid.
  - constructor.
  - apply Forall_cons in Hvalid as [Hvd Hvl].
    constructor; [now apply IH|].
    rewrite Forall_forall in Hd. rewrite Forall_forall in Hvl.
    apply Forall_forall. intros y Hy.
    specialize (Hd y Hy). unfold datetime_lt in Hd.
    rewrite datetime_ltb_key in Hd by auto. now apply Z.ltb_lt.
Qed.

Lemma schedule_strictly_increasing_witness :
  valid_datetime now_sample /\
  match (_generate_commit_dates args_week now_sample rng_sample).1 with
  | Ok sched =>
      StronglySorted datetime_lt sched /\
      StronglySorted (fun x y => datetime_key x < datetime_key y) sched
  | Raise e =>
      e = OverflowError /\ window_representable args_week now_sample = false
  end.
Proof.
  split; [exact now_sample_valid|].
  apply (schedule_strictly_increasing args_week now_sample rng_sample).
  exact now_sample_valid.
Defined.

(** C5. With [no_weekends] set, no date of the schedule falls on a day
    whose weekday index is 5 or more. *)
Theorem no_weekend_dates (a : Args) (now : datetime) (g : rng) :
  valid_datetime now -> no_weekends a = true ->
  match (_generate_commit_dates a now g).1 with
  | Ok sched => Forall (fun d => weekday d < 5) sched
  | Raise e => e = OverflowError /\ window_representable a now = false
  end.
Proof.
  intros Hv Hnw. pose proof (generate_plan a now Hv g) as H.
  destruct (_generate_commit_dates a now g).1 as [sched|e]; [|exact H].
  destruct H as (plan & -> & _ & _ & Hok & _).
  apply Forall_forall. intros d Hd.
  apply list_elem_of_In, schedule_of_In in Hd as (n & k & m & Hin & Hm & ->).
  rewrite Forall_forall in Hok. apply list_elem_of_In in Hin.
  destruct (Hok _ Hin) as (_ & _ & Hwk & _). simpl in Hwk.
  unfold weekday, stamp. simpl. now apply Hwk.
Qed.

Lemma no_weekend_dates_witness :
  valid_datetime now_sample /\ no_weekends args_week = true /\
  match (_generate_commit_dates args_week now_sample rng_sample).1 with
  | Ok sched => Forall (fun d => weekday d < 5) sched
  | Raise e =>
      e = OverflowError /\ window_representable args_week now_sample = false
  end.
Proof.
  split; [exact now_sample_valid|]. split; [reflexivity|].
  apply (no_weekend_dates args_week now_sample rng_sample).
  - exact now_sample_valid.
  - reflexivity.
Defined.

(** C6, as the code has it. The anchor is the current time with hour 20
    and minute 0 and with the seconds and microseconds of the current time,
    which [replace] keeps; every date of the schedule is at hour 20, at a
    minute below 20 and at those seconds and microseconds. *)
Theorem anchor_keeps_seconds (a : Args) (now : datetime) (g : rng) :
  valid_datetime now ->
  hour (anchor now) = 20 /\ minute (anchor now) = 0 /\
  second (anchor now) = second now /\
  microsecond (anchor now) = microsecond now /\
  ordinal (anchor now) = ordinal now /\
  match (_generate_commit_dates a now g).1 with
  | Ok sched =>
      Forall (fun d =>
                hour d = 20 /\ 0 <= minute d < 20 /\
                second d = second now /\
                microsecond d = microsecond now) sched
  | Raise e => e = OverflowError /\ window_representable a now = false
  end.
Proof.
  intros Hv. repeat (split; [reflexivity|]).
  pose proof (generate_plan a now Hv g) as H.
  destruct (_generate_commit_dates a now g).1 as [sched|e]; [|exact H].
  destruct H as (plan & -> & _ & _ & Hok & _).
  apply Forall_forall. intros d Hd.
  apply list_elem_of_In, schedule_of_In in Hd as (n & k & m & Hin & Hm & ->).
  rewrite Forall_forall in Hok. apply list_elem_of_In in Hin.
  destruct (Hok _ Hin) as (_ & Hk & _). simpl in Hk.
  pose proof (clamp_bounds (max_commits a)).
  unfold stamp. simpl. lia.
Qed.

Lemma anchor_keeps_seconds_witness :
  valid_datetime now_sample /\
  second (anchor now_sample) = 30 /\
  match (_generate_commit_dates args_week now_sample rng_sample).1 with
  | Ok sched =>
      Forall (fun d =>
                hour d = 20 /\ 0 <= minute d < 20 /\
                second d = second now_sample /\
                microsecond d = microsecond now_sample) sched
  | Raise e =>
      e = OverflowError /\ window_representable args_week now_sample = false
  end.
Proof.
  split; [exact now_sample_valid|]. split; [reflexivity|].
  apply (anchor_keeps_seconds args_week now_sample rng_sample).
  exact now_sample_valid.
Defined.

(** C6, as the spec states it, fails: at 13:45:30.123456 the anchor is at
    30 seconds and 123456 microseconds, and so is the first date of the
    schedule. *)
Lemma seconds_not_zeroed :
  second (anchor now_sample) = 30 /\
  microsecond (anchor now_sample) = 123456 /\
  exists sched d,
    (_generate_commit_dates args_week now_sample rng_sample).1 = Ok sched /\
    head sched = Some d /\
    second d = 30 /\ microsecond d = 123456.
Proof.
  split; [reflexivity|]. split; [reflexivity|].
  eexists. eexists. split; [vm_compute; reflexivity|].
  split; [reflexivity|]. split; reflexivity.
Qed.

(** ** Strings: [rfind], slices and decimal fields *)

Lemma append_nil (s : string) : EmptyString +:+ s = s.
Proof. reflexivity. Qed.

Lemma append_cons c (s1 s2 : string) :
  String c s1 +:+ s2 = String c (s1 +:+ s2).
Proof. reflexivity. Qed.

Ltac unfold_append := rewrite ?append_nil, ?append_cons.

Lemma string_length_app (s1 s2 : string) :
  String.length (s1 +:+ s2) = (String.length s1 + String.length s2)%nat.
Proof.
  induction s1 as [|c s1 IH]; unfold_append; simpl;
    [reflexivity|now f_equal].
Qed.

Lemma string_app_assoc (s1 s2 s3 : string) :
  (s1 +:+ s2) +:+ s3 = s1 +:+ (s2 +:+ s3).
Proof.
  induction s1 as [|c s1 IH]; unfold_append; [reflexivity|now f_equal].
Qed.

Lemma string_app_nil_r (s : string) : s +:+ EmptyString = s.
Proof.
  induction s as [|c s IH]; unfold_append; [reflexivity|now f_equal].
Qed.

Lemma has_char_app c s1 s2 :
  has_char c (s1 +:+ s2) = has_char c s1 || has_char c s2.
Proof.
  induction s1 as [|b s1 IH]; unfold_append; simpl; [reflexivity|].
  now rewrite IH, orb_assoc.
Qed.

Lemma rfind_from_app c s1 s2 i last :
  rfind_from c (s1 +:+ s2) i last =
  rfind_from c s2 (i + Z.of_nat (String.length s1)) (rfind_from c s1 i last).
Proof.
  revert i last. induction s1 as [|b s1 IH]; intros i last; simpl String.length.
  - unfold_append. simpl. now rewrite Z.add_0_r.
  - unfold_append. cbn [rfind_from]. rewrite IH. f_equal. lia.
Qed.

Lemma rfind_from_absent c s i last :
  has_char c s = false -> rfind_from c s i last = last.
Proof.
  revert i last. induction s as [|b s IH]; intros i last H; simpl in *.
  - reflexivity.
  - apply orb_false_iff in H as [Hb Hs]. rewrite Hb. now apply IH.
Qed.

Lemma rfind_from_present c s i last :
  has_char c s = true ->
  i <= rfind_from c s i last < i + Z.of_nat (String.length s).
Proof.
  revert i last. induction s as [|b s IH]; intros i last H; simpl in H.
  - discriminate.
  - cbn [rfind_from]. simpl String.length.
    destruct (has_char c s) eqn:Hs.
    + specialize (IH (i + 1) (if Ascii.eqb b c then i else last) eq_refl).
      lia.
    + rewrite orb_false_r in H. rewrite H.
      rewrite rfind_from_absent by exact Hs. lia.
Qed.

(** The last occurrence: nothing of [c] after it. *)
Lemma rfind_last c pre post :
  has_char c post = false ->
  rfind (pre +:+ String c post) c = Z.of_nat (String.length pre).
Proof.
  intros H. unfold rfind. rewrite rfind_from_app. cbn [rfind_from].
  rewrite Ascii.eqb_refl. now rewrite rfind_from_absent.
Qed.

Lemma rfind_prefix c pre post :
  has_char c post = false -> rfind (pre +:+ post) c = rfind pre c.
Proof.
  intros H. unfold rfind. rewrite rfind_from_app. now apply rfind_from_absent.
Qed.

Lemma substring_whole s post :
  substring 0 (String.length s) (s +:+ post) = s.
Proof.
  induction s as [|c s IH]; unfold_append; simpl.
  - now destruct post.
  - now rewrite IH.
Qed.

Lemma substring_skip pre n s :
  substring (String.length pre) n (pre +:+ s) = substring 0 n s.
Proof.
  induction pre as [|c pre IH]; unfold_append; simpl; [reflexivity|exact IH].
Qed.

(** The slice that starts after [pre] and stops before [post]. *)
Lemma slice_middle pre mid post :
  slice (pre +:+ mid +:+ post)
        (Z.of_nat (String.length pre))
        (Z.of_nat (String.length pre + String.length mid)) = mid.
Proof.
  unfold slice, slice_index. rewrite !string_length_app.
  replace (Z.of_nat (String.length pre) <? 0) with false
    by (symmetry; apply Z.ltb_ge; lia).
  replace (Z.of_nat (String.length pre + String.length mid) <? 0) with false
    by (symmetry; apply Z.ltb_ge; lia).
  rewrite !Z.min_l by lia.
  destruct mid as [|c mid].
  - simpl String.length. rewrite Nat.add_0_r, Z.ltb_irrefl. reflexivity.
  - replace (_ <? _) with true by (symmetry; apply Z.ltb_lt; simpl; lia).
    rewrite Nat2Z.id.
    replace (Z.to_nat _) with (String.length (String c mid)) by lia.
    rewrite substring_skip. apply substring_whole.
Qed.

(** A slice whose end is not after its start is empty. *)
Lemma slice_empty s start stop :
  0 <= stop <= start -> slice s start stop = EmptyString.
Proof.
  intros H. unfold slice, slice_index.
  replace (start <? 0) with false by (symmetry; apply Z.ltb_ge; lia).
  replace (stop <? 0) with false by (symmetry; apply Z.ltb_ge; lia).
  replace (_ <? _) with false by (symmetry; apply Z.ltb_ge; lia).
  reflexivity.
Qed.

Lemma determine_directory_url a now u :
  repository a = Some u -> u <> EmptyString ->
  _determine_directory a now = slice u (rfind u "/" + 1) (rfind u ".").
Proof.
  intros Hr Hu. unfold _determine_directory. rewrite Hr.
  destruct u; [contradiction|reflexivity].
Qed.

Lemma digit_is_digit n :
  is_digit (digit n) = true /\
  Z.of_nat (nat_of_ascii (digit n)) - 48 = n mod 10.
Proof.
  unfold is_digit, digit. pose proof (Z.mod_pos_bound n 10).
  rewrite nat_ascii_embedding by lia.
  rewrite Z2Nat.id by lia. split; [|lia].
  apply andb_true_iff. rewrite !Z.leb_le. lia.
Qed.

Lemma all_digits_app s1 s2 :
  all_digits (s1 +:+ s2) = all_digits s1 && all_digits s2.
Proof.
  induction s1 as [|c s1 IH]; unfold_append; simpl; [reflexivity|].
  now rewrite IH, andb_assoc.
Qed.

Lemma decimal_from_app acc s1 s2 :
  decimal_from acc (s1 +:+ s2) = decimal_from (decimal_from acc s1) s2.
Proof.
  revert acc. induction s1 as [|c s1 IH]; intros acc; unfold_append; simpl;
    [reflexivity|apply IH].
Qed.

Lemma zpad_shape w n :
  String.length (zpad w n) = w /\ all_digits (zpad w n) = true /\
  forall acc, decimal_from acc (zpad w n) = acc * 10 ^ Z.of_nat w
                                            + n mod 10 ^ Z.of_nat w.
Proof.
  revert n. induction w as [|w IH]; intros n.
  - simpl. repeat split. intros acc. rewrite Z.mod_1_r. lia.
  - cbn [zpad]. destruct (IH (n / 10)) as (Hl & Hd & Hv).
    destruct (digit_is_digit n) as [Hdig Hval].
    repeat split.
    + rewrite string_length_app, Hl. simpl. lia.
    + rewrite all_digits_app, Hd. simpl. now rewrite Hdig.
    + intros acc. rewrite decimal_from_app, Hv. cbn [decimal_from].
      rewrite Hval.
      replace (Z.of_nat (S w)) with (1 + Z.of_nat w) by lia.
      rewrite Z.pow_add_r by lia. change (10 ^ 1) with 10.
      rewrite (Z.rem_mul_r n 10 (10 ^ Z.of_nat w)) by lia.
      lia.
Qed.

(** A number below [10 ^ w] is a field of [w] digits. *)
Lemma zpad_field w n :
  0 <= n < 10 ^ Z.of_nat w -> field w n (zpad w n).
Proof.
  intros Hn. destruct (zpad_shape w n) as (Hl & Hd & Hv).
  repeat split; [exact Hl|exact Hd|].
  unfold decimal_value. rewrite Hv, Z.mod_small; lia.
Qed.

(** The year of a [datetime] is printed in full, in four digits from the
    year 1000 on. *)
Lemma format_year_number y :
  1 <= y <= 9999 ->
  all_digits (format_year y) = true /\
  decimal_value (format_year y) = y /\
  (1000 <= y -> String.length (format_year y) = 4%nat).
Proof.
  intros Hy. unfold format_year.
  destruct (Z.ltb_spec y 10); [|destruct (Z.ltb_spec y 100);
    [|destruct (Z.ltb_spec y 1000)]].
  - assert (Hf : field 1 y (zpad 1 y)) by (apply zpad_field; simpl; lia).
    destruct Hf as (_ & Hd & Hv).
    split; [exact Hd|split; [exact Hv|lia]].
  - assert (Hf : field 2 y (zpad 2 y)) by (apply zpad_field; simpl; lia).
    destruct Hf as (_ & Hd & Hv).
    split; [exact Hd|split; [exact Hv|lia]].
  - assert (Hf : field 3 y (zpad 3 y)) by (apply zpad_field; simpl; lia).
    destruct Hf as (_ & Hd & Hv).
    split; [exact Hd|split; [exact Hv|lia]].
  - assert (Hf : field 4 y (zpad 4 y)) by (apply zpad_field; simpl; lia).
    destruct Hf as (Hl & Hd & Hv).
    split; [exact Hd|split; [exact Hv|intros _; exact Hl]].
Qed.

(** ** Calendar fields *)

Lemma DAYS_BEFORE_MONTH_cases m :
  1 <= m <= 12 ->
  (m = 1 /\ DAYS_BEFORE_MONTH m = 0) \/ (m = 2 /\ DAYS_BEFORE_MONTH m = 31) \/
  (m = 3 /\ DAYS_BEFORE_MONTH m = 59) \/ (m = 4 /\ DAYS_BEFORE_MONTH m = 90) \/
  (m = 5 /\ DAYS_BEFORE_MONTH m = 120) \/
  (m = 6 /\ DAYS_BEFORE_MONTH m = 151) \/
  (m = 7 /\ DAYS_BEFORE_MONTH m = 181) \/
  (m = 8 /\ DAYS_BEFORE_MONTH m = 212) \/
  (m = 9 /\ DAYS_BEFORE_MONTH m = 243) \/
  (m = 10 /\ DAYS_BEFORE_MONTH m = 273) \/
  (m = 11 /\ DAYS_BEFORE_MONTH m = 304) \/
  (m = 12 /\ DAYS_BEFORE_MONTH m = 334).
Proof.
  intros H.
  assert (m = 1 \/ m = 2 \/ m = 3 \/ m = 4 \/ m = 5 \/ m = 6 \/ m = 7 \/
          m = 8 \/ m = 9 \/ m = 10 \/ m = 11 \/ m = 12) as Hm by lia.
  repeat (destruct Hm as [->|Hm]; [tauto|]). subst m. tauto.
Qed.

(** In the range of [datetime] the year has four digits at most, and the
    month and the day two. *)
Lemma ord2ymd_bounds n :
  1 <= n <= MAXORDINAL ->
  1 <= (ord2ymd n).1.1 <= 9999 /\
  1 <= (ord2ymd n).1.2 <= 12 /\
  1 <= (ord2ymd n).2 <= 31.
Proof.
  unfold MAXORDINAL, ord2ymd. intros Hn.
  set (n0 := n - 1).
  set (n400 := n0 / 146097). set (r1 := n0 mod 146097).
  set (n100 := r1 / 36524). set (r2 := r1 mod 36524).
  set (n4 := r2 / 1461). set (r3 := r2 mod 1461).
  set (n1 := r3 / 365). set (r4 := r3 mod 365).
  assert (E1 : n0 = 146097 * n400 + r1 /\ 0 <= r1 < 146097)
    by (subst n400 r1; Z.to_euclidean_division_equations; lia).
  assert (E2 : r1 = 36524 * n100 + r2 /\ 0 <= r2 < 36524)
    by (subst n100 r2; Z.to_euclidean_division_equations; lia).
  assert (E3 : r2 = 1461 * n4 + r3 /\ 0 <= r3 < 1461)
    by (subst n4 r3; Z.to_euclidean_division_equations; lia).
  assert (E4 : r3 = 365 * n1 + r4 /\ 0 <= r4 < 365)
    by (subst n1 r4; Z.to_euclidean_division_equations; lia).
  assert (Hn0 : 0 <= n0 <= 3652058) by (subst n0; lia).
  clearbody n400 r1 n100 r2 n4 r3 n1 r4 n0.
  destruct ((n1 =? 4) || (n100 =? 4)) eqn:Hlast.
  - cbn [fst snd]. apply orb_true_iff in Hlast.
    rewrite !Z.eqb_eq in Hlast. lia.
  - apply orb_false_iff in Hlast. rewrite !Z.eqb_neq in Hlast.
    rewrite Z.shiftr_div_pow2 by lia. change (2 ^ 5) with 32.
    set (month := (r4 + 50) / 32).
    assert (Em : 32 * month <= r4 + 50 < 32 * month + 32)
      by (subst month; Z.to_euclidean_division_equations; lia).
    clearbody month.
    set (leapyear := (n1 =? 3) && (negb (n4 =? 24) || (n100 =? 3))).
    clearbody leapyear.
    assert (Hmonth : 1 <= month <= 12) by lia.
    destruct (DAYS_BEFORE_MONTH_cases month Hmonth)
      as [[-> ->]|[[-> ->]|[[-> ->]|[[-> ->]|[[-> ->]|[[-> ->]|[[-> ->]|
          [[-> ->]|[[-> ->]|[[-> ->]|[[-> ->]|[-> ->]]]]]]]]]]]];
      destruct leapyear; cbn [Z_of_bool andb Z.ltb Z.compare Pos.compare
                              Pos.compare_cont];
      match goal with
      | |- context [if ?c then _ else _] =>
          destruct c eqn:Hc; cbn [fst snd];
          [apply Z.ltb_lt in Hc|apply Z.ltb_ge in Hc];
          cbn in Hc |- *;
          repeat match goal with
                 | |- context [DAYS_IN_MONTH ?m] =>
                     let v := eval vm_compute in (DAYS_IN_MONTH m) in
                     change (DAYS_IN_MONTH m) with v
                 | |- context [Z_of_bool ?b] =>
                     let v := eval vm_compute in (Z_of_bool b) in
                     change (Z_of_bool b) with v
                 end;
          lia
      end.
Qed.

(** ** The target directory *)

Lemma strftime_default now :
  strftime now "%Y-%m-%d-%H-%M-%S" =
  format_year (year now) +:+ "-" +:+ zpad 2 (month now) +:+ "-" +:+
  zpad 2 (day now) +:+ "-" +:+ zpad 2 (hour now) +:+ "-" +:+
  zpad 2 (minute now) +:+ "-" +:+ zpad 2 (second now).
Proof.
  unfold strftime. cbn [Ascii.eqb Bool.eqb andb]. unfold directive.
  cbn [Ascii.eqb Bool.eqb andb]. now rewrite string_app_nil_r.
Qed.

(** C8. The name of the target directory comes from the configuration
    alone.  For a URL [pre/mid.ext], whose last '/' is the one before [mid]
    and whose last '.' is the one before [ext], it is [mid]: what lies from
    the character after the last '/' up to the last '.'; so
    [https://example.com/foo/bar-project.git] gives [bar-project].  With no
    URL it is [repository-] followed by the clock reading as
    [YYYY-MM-DD-HH-MM-SS]: the year in decimal, of four digits from the year
    1000 on, and the other fields in two digits each. *)
Theorem directory_name (a : Args) (now : datetime) :
  valid_datetime now ->
  (forall pre mid ext,
     repository a = Some (pre +:+ "/" +:+ mid +:+ "." +:+ ext) ->
     has_char "/" mid = false -> has_char "/" ext = false ->
     has_char "." ext = false ->
     _determine_directory a now = mid) /\
  _determine_directory (args_url "https://example.com/foo/bar-project.git") now
  = "bar-project" /\
  (repository a = None \/ repository a = Some EmptyString ->
   exists Y m d H M S,
     _determine_directory a now =
       "repository-" +:+ Y +:+ "-" +:+ m +:+ "-" +:+ d +:+ "-" +:+
       H +:+ "-" +:+ M +:+ "-" +:+ S /\
     all_digits Y = true /\ decimal_value Y = year now /\
     (1000 <= year now -> String.length Y = 4%nat) /\
     field 2 (month now) m /\ field 2 (day now) d /\
     field 2 (hour now) H /\ field 2 (minute now) M /\
     field 2 (second now) S).
Proof.
  intros Hv. split; [|split].
  - intros pre mid ext Hr Hmid Hext Hdot.
    rewrite (determine_directory_url a now _ Hr)
      by (destruct pre; discriminate).
    change ("/" +:+ mid +:+ "." +:+ ext)
      with (String "/" (mid +:+ String "." ext)).
    rewrite rfind_last
      by (rewrite has_char_app; simpl; now rewrite Hmid, Hext).
    replace (pre +:+ String "/" (mid +:+ String "." ext))
      with ((pre +:+ String "/" mid) +:+ String "." ext)
      by (rewrite !string_app_assoc; reflexivity).
    rewrite rfind_last by exact Hdot.
    replace ((pre +:+ String "/" mid) +:+ String "." ext)
      with ((pre +:+ "/") +:+ mid +:+ String "." ext)
      by (rewrite !string_app_assoc; reflexivity).
    replace (Z.of_nat (String.length pre) + 1)
      with (Z.of_nat (String.length (pre +:+ "/")))
      by (rewrite string_length_app; simpl; lia).
    replace (String.length (pre +:+ String "/" mid))
      with (String.length (pre +:+ "/") + String.length mid)%nat
      by (rewrite !string_length_app; simpl; lia).
    apply slice_middle.
  - reflexivity.
  - intros Hr.
    exists (format_year (year now)), (zpad 2 (month now)), (zpad 2 (day now)),
           (zpad 2 (hour now)), (zpad 2 (minute now)), (zpad 2 (second now)).
    destruct Hv as (Ho & Hh & Hm & Hs & _).
    destruct (ord2ymd_bounds _ Ho) as (Hy & Hmo & Hd).
    split.
    + unfold _determine_directory.
      destruct Hr as [->| ->]; now rewrite strftime_default.
    + unfold year, month, day in *.
      destruct (format_year_number _ Hy) as (Hyd & Hyv & Hyl).
      split; [exact Hyd|]. split; [exact Hyv|]. split; [exact Hyl|].
      repeat split; apply zpad_field; simpl; lia.
Qed.

Lemma directory_name_witness :
  valid_datetime now_sample /\
  _determine_directory (args_url "git@github.com:me/activity.git") now_sample
  = "activity" /\
  _determine_directory args_default now_sample
  = "repository-2024-04-24-13-45-30".
Proof.
  split; [exact now_sample_valid|].
  pose proof (directory_name (args_url "git@github.com:me/activity.git")
                now_sample now_sample_valid) as (H & _ & _).
  split; [|reflexivity].
  apply (H "git@github.com:me" "activity" "git"); reflexivity.
Defined.

(** C10, as the code has it. When the URL has a '.' before its last '/'
    and none after it, the name of the target directory is the empty
    string: the slice ends at that '.', before it starts. *)
Theorem directory_empty_without_extension (a : Args) (now : datetime)
    (pre seg : string) :
  repository a = Some (pre +:+ "/" +:+ seg) ->
  has_char "/" seg = false -> has_char "." seg = false ->
  has_char "." pre = true ->
  _determine_directory a now = EmptyString.
Proof.
  intros Hr Hslash Hdot Hpre.
  rewrite (determine_directory_url a now _ Hr)
    by (destruct pre; discriminate).
  change ("/" +:+ seg) with (String "/" seg).
  rewrite rfind_last by exact Hslash.
  rewrite rfind_prefix by (simpl; exact Hdot).
  pose proof (rfind_from_present "." pre 0 (-1) Hpre) as Hb.
  apply slice_empty. unfold rfind. lia.
Qed.

Lemma directory_empty_without_extension_witness :
  _determine_directory (args_url "https://example.com/foo/bar") now_sample
  = EmptyString.
Proof.
  apply (directory_empty_without_extension
           (args_url "https://example.com/foo/bar") now_sample
           "https://example.com/foo" "bar"); reflexivity.
Defined.

(** C10, as the spec states it, fails: [http://localhost/foo/bar] has no
    '.' after its last '/', nor anywhere, and the name is [ba], the last
    segment without its last character, for [rfind] answers -1. *)
Lemma directory_not_empty_without_any_dot :
  has_char "." "http://localhost/foo/bar" = false /\
  rfind "http://localhost/foo/bar" "." = -1 /\
  _determine_directory (args_url "http://localhost/foo/bar") now_sample = "ba" /\
  _determine_directory (args_url "http://localhost/foo/bar") now_sample
  <> EmptyString.
Proof. repeat split; try reflexivity. discriminate. Qed.

(** ** The driver *)

Lemma os_mkdir_exists name w :
  is_Some (lookup_path w name) -> os_mkdir name w = (Raise FileExistsError, w).
Proof. intros [n Hn]. unfold os_mkdir. now rewrite Hn. Qed.

(** The constructor returns an object whose directory is the derived name,
    whenever the synthesizer returns. *)
Lemma GitRepository_init_directory a now g :
  match GitRepository_init a now g with
  | (Ok repo, _) =>
      directory repo = _determine_directory a now /\
      Ok (commit_dates repo) = (_generate_commit_dates a now g).1 /\
      args repo = a
  | (Raise e, _) => Raise e = (_generate_commit_dates a now g).1
  end.
Proof.
  unfold GitRepository_init, bind, ret.
  destruct (_generate_commit_dates a now g) as [[sched|e] g']; simpl; auto.
Qed.

(** C9. When the target directory exists already, creating it raises
    [FileExistsError]; nothing catches it, so [setup] ends with it and with
    the world as it was: no command has run, no line is written to the
    file, none is printed.  The script as a whole does the same once the
    schedule is built. *)
Theorem existing_directory_is_fatal (self : GitRepository) (w : world) :
  is_Some (lookup_path w (directory self)) ->
  os_mkdir (directory self) w = (Raise FileExistsError, w) /\
  _create_and_initialize_repository self w = (Raise FileExistsError, w) /\
  setup self w = (Raise FileExistsError, w) /\
  (forall a now g g',
     GitRepository_init a now g = (Ok self, g') ->
     main a now g w = (Raise FileExistsError, w)).
Proof.
  intros Hex. pose proof (os_mkdir_exists _ _ Hex) as Hmk.
  assert (Hcreate : _create_and_initialize_repository self w =
                    (Raise FileExistsError, w)).
  { unfold _create_and_initialize_repository, bind. now rewrite Hmk. }
  assert (Hsetup : setup self w = (Raise FileExistsError, w)).
  { unfold setup, bind. now rewrite Hcreate. }
  repeat split; try assumption.
  intros a now g g' Hinit. unfold main. now rewrite Hinit.
Qed.

Lemma existing_directory_is_fatal_witness :
  is_Some (lookup_path world_taken (directory repo_sample)) /\
  setup repo_sample world_taken = (Raise FileExistsError, world_taken).
Proof.
  assert (H : is_Some (lookup_path world_taken (directory repo_sample)))
    by (exists Dir; vm_compute; reflexivity).
  split; [exact H|].
  exact (proj1 (proj2 (proj2 (existing_directory_is_fatal repo_sample
                                world_taken H)))).
Defined.

(** * Further properties of the synthesizer *)

Section PlanFrom.

Variable a : Args.
Variable now : datetime.
Hypothesis now_valid : valid_datetime now.

(** The outer loop computes the schedule of [plan_from] and leaves its
    source, when [datetime] can hold every day. *)
Lemma days_loop_plan_from o0 ns acc g :
  in_range o0 = true ->
  Forall (fun n => in_range (o0 + n) = true) ns ->
  days_loop a (stamp now o0 0) ns acc g =
  (Ok (acc ++ schedule_of now o0 (plan_from a o0 ns g).1),
   (plan_from a o0 ns g).2).
Proof.
  intros Ho0 Hns. revert acc g.
  induction Hns as [|n ns Hn _ IH]; intros acc g.
  - simpl. unfold ret. now rewrite app_nil_r.
  - cbn [days_loop plan_from]. unfold bind at 1, lift at 1.
    rewrite datetime_add_days
      by (apply stamp_valid; [exact now_valid|exact Ho0|lia]).
    cbn [stamp ordinal]. rewrite Hn, shift_stamp. unfold bind at 1.
    rewrite (day_step_eq a now now_valid) by exact Hn.
    fold (weekday_ok a (o0 + n)).
    destruct (weekday_ok a (o0 + n)); cbn [andb]; [|apply IH].
    destruct (day_draw g <? frequency a); [|apply IH].
    rewrite IH.
    destruct (plan_from a o0 ns (advance g 3)) as [plan g']. simpl.
    now rewrite <- app_assoc.
Qed.

Lemma generate_plan_from g :
  window_representable a now = true ->
  _generate_commit_dates a now g =
  (Ok (schedule_of now (first_day a now)
         (plan_from a (first_day a now)
            (range (days_before a + days_after a)) g).1),
   (plan_from a (first_day a now)
      (range (days_before a + days_after a)) g).2).
Proof.
  intros Hw. apply window_representable_iff in Hw as [H0 HN].
  unfold _generate_commit_dates, bind at 1, lift.
  rewrite datetime_sub_days by (apply anchor_valid, now_valid).
  change (ordinal (anchor now) - days_before a) with (first_day a now).
  rewrite H0.
  change (shift_days (anchor now) (- days_before a))
    with (stamp now (ordinal now + - days_before a) 0).
  replace (ordinal now + - days_before a) with (first_day a now)
    by (unfold first_day; lia).
  now rewrite (days_loop_plan_from _ _ [] g H0 HN).
Qed.

End PlanFrom.

(** The source after the plan: one draw for each day that passes the
    weekend test and two more for each day of the plan. *)
Lemma plan_from_source a o0 ns g :
  (plan_from a o0 ns g).2 =
  advance g (length (candidate_days a o0 ns)
             + 2 * length (plan_from a o0 ns g).1).
Proof.
  revert g. induction ns as [|n ns IH]; intros g;
    cbn [plan_from candidate_days List.filter].
  - destruct g as [s d]. unfold advance. simpl. now rewrite Nat.add_0_r.
  - fold (candidate_days a o0 ns).
    destruct (weekday_ok a (o0 + n)); [|apply IH].
    destruct (day_draw g <? frequency a).
    + specialize (IH (advance g 3)).
      destruct (plan_from a o0 ns (advance g 3)) as [plan g']. simpl in *.
      rewrite IH, advance_advance. f_equal; lia.
    + rewrite IH, advance_advance. f_equal; simpl; lia.
Qed.

(** With a frequency above 100 every day that passes the weekend test is
    in the plan. *)
Lemma plan_from_all a o0 ns g :
  100 < frequency a ->
  map fst (plan_from a o0 ns g).1 = candidate_days a o0 ns.
Proof.
  intros Hfr. revert g. induction ns as [|n ns IH]; intros g;
    cbn [plan_from candidate_days List.filter]; [reflexivity|].
  fold (candidate_days a o0 ns).
  destruct (weekday_ok a (o0 + n)); [|apply IH].
  assert (Hd : 0 <= day_draw g <= 100)
    by (apply (randint_value_bounds 0 100); lia).
  replace (day_draw g <? frequency a) with true
    by (symmetry; apply Z.ltb_lt; lia).
  specialize (IH (advance g 3)).
  destruct (plan_from a o0 ns (advance g 3)) as [plan g']. simpl in *.
  now rewrite IH.
Qed.

Lemma plan_from_counts a o0 ns g :
  Forall (fun nk => 1 <= nk.2 <= clamp (max_commits a)) (plan_from a o0 ns g).1.
Proof.
  revert g. induction ns as [|n ns IH]; intros g; cbn [plan_from].
  - constructor.
  - destruct (weekday_ok a (o0 + n)); [|apply IH].
    destruct (day_draw g <? frequency a); [|apply IH].
    specialize (IH (advance g 3)).
    destruct (plan_from a o0 ns (advance g 3)) as [plan g']. simpl in *.
    constructor; [|exact IH]. simpl.
    pose proof (day_bound_bounds a (advance g 1)).
    pose proof (day_count_bounds a (advance g 1)). lia.
Qed.

Lemma generate_result a now g :
  valid_datetime now ->
  (_generate_commit_dates a now g).1 =
  if window_representable a now then
    Ok (schedule_of now (first_day a now)
          (plan_from a (first_day a now)
             (range (days_before a + days_after a)) g).1)
  else Raise OverflowError.
Proof.
  intros Hv. destruct (window_representable a now) eqn:Hw.
  - now rewrite (generate_plan_from a now Hv g Hw).
  - pose proof (generate_plan a now Hv g) as H.
    destruct (_generate_commit_dates a now g).1 as [sched|e].
    + destruct H as (_ & _ & _ & _ & _ & H). congruence.
    + destruct H as [-> _]. reflexivity.
Qed.

Lemma schedule_of_length now o0 plan c :
  Forall (fun nk => 1 <= nk.2 <= c) plan ->
  Z.of_nat (length (schedule_of now o0 plan)) <= c * Z.of_nat (length plan).
Proof.
  induction 1 as [|[n k] plan Hk _ IH]; simpl in *; [lia|].
  rewrite length_app, Nat2Z.inj_add, day_block_length by lia. lia.
Qed.

Lemma starts_of_schedule now o0 plan :
  Forall (fun nk => 1 <= nk.2) plan ->
  length (List.filter (fun d => minute d =? 0) (schedule_of now o0 plan))
  = length plan.
Proof.
  induction 1 as [|[n k] plan Hk _ IH]; simpl in *; [reflexivity|].
  rewrite List.filter_app, length_app, IH. f_equal.
  unfold day_block, range. rewrite seqZ_cons by lia. simpl.
  assert (Hrest : forall ms, Forall (fun m => 1 <= m) ms ->
            List.filter (fun d => minute d =? 0) (map (stamp now (o0 + n)) ms)
            = []).
  { induction 1 as [|m ms Hm _ IHm]; simpl; [reflexivity|].
    replace (m =? 0) with false by (symmetry; apply Z.eqb_neq; lia).
    exact IHm. }
  rewrite Hrest; [reflexivity|]. apply Forall_seqZ. intros; lia.
Qed.

Lemma plan_from_length a o0 ns g :
  (length (plan_from a o0 ns g).1 <= length ns)%nat.
Proof.
  revert g. induction ns as [|n ns IH]; intros g; cbn [plan_from];
    [simpl; lia|].
  destruct (weekday_ok a (o0 + n)); [destruct (day_draw g <? frequency a)|].
  - specialize (IH (advance g 3)).
    destruct (plan_from a o0 ns (advance g 3)). simpl in *. lia.
  - specialize (IH (advance g 1)). simpl. lia.
  - specialize (IH g). simpl. lia.
Qed.

(** X1. A window of no days, [days_before + days_after <= 0], gives the
    empty schedule and reads nothing from the random source; only the start
    of the window is computed, and it raises [OverflowError] when
    [datetime] cannot hold it. *)
Theorem empty_window_empty_schedule (a : Args) (now : datetime) (g : rng) :
  valid_datetime now -> days_before a + days_after a <= 0 ->
  _generate_commit_dates a now g =
  (if in_range (first_day a now) then Ok [] else Raise OverflowError, g).
Proof.
  intros Hv HN. unfold _generate_commit_dates, bind, lift.
  rewrite datetime_sub_days by (apply anchor_valid, Hv).
  change (ordinal (anchor now) - days_before a) with (first_day a now).
  destruct (in_range (first_day a now)); [|reflexivity].
  unfold range. now rewrite seqZ_nil by lia.
Qed.

Lemma empty_window_empty_schedule_witness :
  _generate_commit_dates (mk_Args false 10 80 None None None 3 (-5))
    now_sample rng_sample = (Ok [], rng_sample).
Proof.
  exact (empty_window_empty_schedule
           (mk_Args false 10 80 None None None 3 (-5)) now_sample rng_sample
           now_sample_valid ltac:(simpl; lia)).
Defined.

(** X2. The schedule holds at most [max(1, min(20, max_commits))] dates
    for each day of the window, so at most twenty times the number of its
    days. *)
Theorem schedule_length_bounded (a : Args) (now : datetime) (g : rng) :
  valid_datetime now ->
  match (_generate_commit_dates a now g).1 with
  | Ok sched =>
      Z.of_nat (length sched)
      <= clamp (max_commits a) * Z.max 0 (days_before a + days_after a) /\
      Z.of_nat (length sched)
      <= 20 * Z.max 0 (days_before a + days_after a)
  | Raise e => e = OverflowError
  end.
Proof.
  intros Hv. rewrite (generate_result a now g Hv).
  destruct (window_representable a now); [|reflexivity].
  set (N := days_before a + days_after a).
  set (p := plan_from a (first_day a now) (range N) g).
  pose proof (schedule_of_length now (first_day a now) p.1 _
                (plan_from_counts a (first_day a now) (range N) g)) as Hlen.
  fold p in Hlen.
  assert (Hp : Z.of_nat (length p.1) <= Z.max 0 N).
  { pose proof (plan_from_length a (first_day a now) (range N) g) as Hsub.
    fold p in Hsub. unfold range in Hsub. rewrite length_seqZ in Hsub. lia. }
  pose proof (clamp_bounds (max_commits a)). nia.
Qed.

Lemma schedule_length_bounded_witness :
  match (_generate_commit_dates args_week now_sample rng_sample).1 with
  | Ok sched =>
      Z.of_nat (length sched)
      <= clamp (max_commits args_week)
         * Z.max 0 (days_before args_week + days_after args_week) /\
      Z.of_nat (length sched)
      <= 20 * Z.max 0 (days_before args_week + days_after args_week)
  | Raise e => e = OverflowError
  end.
Proof.
  exact (schedule_length_bounded args_week now_sample rng_sample
           now_sample_valid).
Defined.

(** X3. The dates of a day are at consecutive minutes from 20:00 on: with
    a date, the schedule holds the dates of the same day at every earlier
    minute down to minute 0. *)
Theorem minute_offsets_contiguous (a : Args) (now : datetime) (g : rng) :
  valid_datetime now ->
  match (_generate_commit_dates a now g).1 with
  | Ok sched =>
      forall d, In d sched ->
        forall m, 0 <= m <= minute d -> In (stamp now (ordinal d) m) sched
  | Raise e => e = OverflowError
  end.
Proof.
  intros Hv. rewrite (generate_result a now g Hv).
  destruct (window_representable a now); [|reflexivity].
  intros d Hd m Hm.
  apply schedule_of_In in Hd as (n & k & m' & Hin & Hm' & ->).
  simpl in Hm. apply schedule_of_In. exists n, k, m.
  split; [exact Hin|]. split; [lia|reflexivity].
Qed.

Lemma minute_offsets_contiguous_witness :
  match (_generate_commit_dates args_week now_sample rng_sample).1 with
  | Ok sched =>
      forall d, In d sched ->
        forall m, 0 <= m <= minute d ->
          In (stamp now_sample (ordinal d) m) sched
  | Raise e => e = OverflowError
  end.
Proof.
  exact (minute_offsets_contiguous args_week now_sample rng_sample
           now_sample_valid).
Defined.

(** X4. With a frequency above 100 the draw is always below it: every day
    of the window that passes the weekend test has its 20:00 date in the
    schedule (every day at all when [no_weekends] is not set). *)
Theorem frequency_above_100_includes_every_day (a : Args) (now : datetime)
    (g : rng) :
  valid_datetime now -> 100 < frequency a ->
  match (_generate_commit_dates a now g).1 with
  | Ok sched =>
      forall n, 0 <= n < days_before a + days_after a ->
        no_weekends a = false \/
        weekday (stamp now (first_day a now + n) 0) < 5 ->
        In (stamp now (first_day a now + n) 0) sched
  | Raise e => e = OverflowError
  end.
Proof.
  intros Hv Hfr. rewrite (generate_result a now g Hv).
  destruct (window_representable a now); [|reflexivity].
  intros n Hn Hday.
  set (ns := range (days_before a + days_after a)).
  pose proof (plan_from_all a (first_day a now) ns g Hfr) as Hall.
  pose proof (plan_from_counts a (first_day a now) ns g) as Hk.
  assert (Hin : In n (map fst (plan_from a (first_day a now) ns g).1)).
  { rewrite Hall. unfold candidate_days. apply List.filter_In. split.
    - now apply range_In.
    - unfold weekday_ok. destruct Hday as [->|Hwk]; [reflexivity|].
      apply orb_true_iff. right. now apply Z.ltb_lt. }
  apply in_map_iff in Hin as ([n' k] & Hn' & Hin). simpl in Hn'. subst n'.
  rewrite Forall_forall in Hk.
  pose proof (Hk _ (proj2 (list_elem_of_In _ _) Hin)) as Hk'. simpl in Hk'.
  apply schedule_of_In. exists n, k, 0.
  split; [exact Hin|]. split; [lia|reflexivity].
Qed.

Lemma frequency_above_100_includes_every_day_witness :
  match (_generate_commit_dates args_dense now_sample rng_sample).1 with
  | Ok sched =>
      forall n, 0 <= n < days_before args_dense + days_after args_dense ->
        no_weekends args_dense = false \/
        weekday (stamp now_sample (first_day args_dense now_sample + n) 0) < 5
        -> In (stamp now_sample (first_day args_dense now_sample + n) 0) sched
  | Raise e => e = OverflowError
  end.
Proof.
  exact (frequency_above_100_includes_every_day args_dense now_sample
           rng_sample now_sample_valid ltac:(simpl; lia)).
Defined.

(** X5. With [max_commits <= 1] an included day has exactly one commit:
    every date of the schedule is at minute 0, and no day has two. *)
Theorem one_commit_per_day_when_max_is_one (a : Args) (now : datetime)
    (g : rng) :
  valid_datetime now -> max_commits a <= 1 ->
  match (_generate_commit_dates a now g).1 with
  | Ok sched =>
      Forall (fun d => minute d = 0) sched /\
      forall o, commits_on o sched = 0 \/ commits_on o sched = 1
  | Raise e => e = OverflowError
  end.
Proof.
  intros Hv Hmc. pose proof (generate_plan a now Hv g) as H.
  destruct (_generate_commit_dates a now g).1 as [sched|e];
    [|now destruct H].
  destruct H as (plan & -> & Hs & _ & Hok & _).
  assert (Hc : clamp (max_commits a) = 1) by (unfold clamp; lia).
  assert (Hk : Forall (fun nk : Z * Z => 1 <= nk.2 <= 1) plan).
  { eapply Forall_impl; [exact Hok|]. intros nk (_ & Hk & _). lia. }
  split.
  - apply Forall_forall. intros d Hd.
    apply list_elem_of_In, schedule_of_In in Hd
      as (n & k & m & Hin & Hm & ->).
    rewrite Forall_forall in Hk.
    pose proof (Hk _ (proj2 (list_elem_of_In _ _) Hin)) as Hk'.
    simpl in *. lia.
  - intros o.
    destruct (commits_on_schedule now (first_day a now) o plan 1 Hs Hk);
      [left; assumption|right; lia].
Qed.

Lemma one_commit_per_day_when_max_is_one_witness :
  match (_generate_commit_dates args_dense now_sample rng_sample).1 with
  | Ok sched =>
      Forall (fun d => minute d = 0) sched /\
      forall o, commits_on o sched = 0 \/ commits_on o sched = 1
  | Raise e => e = OverflowError
  end.
Proof.
  exact (one_commit_per_day_when_max_is_one args_dense now_sample rng_sample
           now_sample_valid ltac:(simpl; lia)).
Defined.

(** X6. The synthesizer reads the random source once for each day of the
    window that passes the weekend test and twice more for each day it
    includes, and never for a day it skips as a weekend; the days it
    includes are the dates of the schedule at minute 0. *)
Theorem draws_consumed (a : Args) (now : datetime) (g g' : rng)
    (sched : list datetime) :
  valid_datetime now ->
  _generate_commit_dates a now g = (Ok sched, g') ->
  source g' = source g /\
  drawn g' =
    (drawn g
     + length (candidate_days a (first_day a now)
                 (range (days_before a + days_after a)%Z))
     + 2 * length (List.filter (fun d => (minute d =? 0)%Z) sched))%nat /\
  Z.of_nat (drawn g')
  <= Z.of_nat (drawn g) + 3 * Z.max 0 (days_before a + days_after a).
Proof.
  intros Hv Hgen.
  pose proof (generate_result a now g Hv) as Hres. rewrite Hgen in Hres.
  simpl in Hres.
  destruct (window_representable a now) eqn:Hw; [|discriminate].
  rewrite (generate_plan_from a now Hv g Hw) in Hgen.
  injection Hgen as <- <-.
  set (ns := range (days_before a + days_after a)).
  rewrite plan_from_source. fold ns.
  pose proof (plan_from_counts a (first_day a now) ns g) as Hk.
  rewrite starts_of_schedule
    by (eapply Forall_impl; [exact Hk|]; intros nk Hnk; simpl in *; lia).
  unfold advance. simpl. split; [reflexivity|]. split; [lia|].
  pose proof (plan_from_length a (first_day a now) ns g) as Hl.
  assert (Hc : (length (candidate_days a (first_day a now) ns)
                <= length ns)%nat).
  { unfold candidate_days. clear. induction ns as [|n ns IH]; simpl; [lia|].
    destruct (weekday_ok a (first_day a now + n)); simpl; lia. }
  subst ns. unfold range in Hl, Hc. rewrite length_seqZ in Hl, Hc.
  unfold range. lia.
Qed.

Lemma draws_consumed_witness :
  _generate_commit_dates args_two_days now_sample rng_sample =
    (Ok [stamp now_sample 738998 0; stamp now_sample 738999 0],
     advance rng_sample 6) /\
  drawn (advance rng_sample 6) = 6%nat.
Proof.
  assert (H : _generate_commit_dates args_two_days now_sample rng_sample =
              (Ok [stamp now_sample 738998 0; stamp now_sample 738999 0],
               advance rng_sample 6)) by (vm_compute; reflexivity).
  split; [exact H|].
  pose proof (draws_consumed args_two_days now_sample rng_sample _ _
                now_sample_valid H) as (_ & Hd & _).
  exact Hd.
Defined.

(** X7. When [datetime] cannot hold the window the script ends with the
    [OverflowError] of the synthesizer before the driver has done anything:
    no directory is made, no command is run, nothing is printed. *)
Theorem overflow_precedes_effects (a : Args) (now : datetime) (g : rng)
    (w : world) :
  valid_datetime now -> window_representable a now = false ->
  main a now g w = (Raise OverflowError, w).
Proof.
  intros Hv Hw. pose proof (generate_result a now g Hv) as Hres.
  rewrite Hw in Hres. unfold main, GitRepository_init, bind.
  destruct (_generate_commit_dates a now g) as [[sched|e] g'];
    simpl in Hres; [discriminate|].
  now injection Hres as ->.
Qed.

Lemma overflow_precedes_effects_witness :
  main (mk_Args false 10 80 None None None 739000 0) now_sample rng_sample
       world_free = (Raise OverflowError, world_free).
Proof.
  exact (overflow_precedes_effects
           (mk_Args false 10 80 None None None 739000 0) now_sample rng_sample
           world_free now_sample_valid eq_refl).
Defined.

(** * Further properties of the target directory *)

Lemma has_char_substring c s n m :
  has_char c s = false -> has_char c (substring n m s) = false.
Proof.
  revert n m. induction s as [|b s IH]; intros n m H.
  - now destruct n, m.
  - simpl in H. apply orb_false_iff in H as [Hb Hs].
    destruct n as [|n]; [destruct m as [|m]|]; simpl.
    + reflexivity.
    + rewrite Hb. now apply IH.
    + now apply IH.
Qed.

(** Nothing of [c] from the index after its last occurrence on. *)
Lemma has_char_after_last c s i last n m :
  rfind_from c s i last < i + Z.of_nat n ->
  has_char c (substring n m s) = false.
Proof.
  destruct (has_char c s) eqn:Hs; [|intros _; now apply has_char_substring].
  revert i last n m Hs. induction s as [|b s IH]; intros i last n m Hs Hlt.
  - discriminate.
  - destruct n as [|n].
    + pose proof (rfind_from_present c (String b s) i last Hs). lia.
    + cbn [substring]. cbn [rfind_from] in Hlt.
      destruct (has_char c s) eqn:Hs'.
      * apply (IH (i + 1) (if Ascii.eqb b c then i else last)); [reflexivity|].
        lia.
      * now apply has_char_substring.
Qed.

Lemma rfind_bounds s c : -1 <= rfind s c < Z.of_nat (String.length s).
Proof.
  unfold rfind. destruct (has_char c s) eqn:H.
  - pose proof (rfind_from_present c s 0 (-1) H). lia.
  - rewrite rfind_from_absent by exact H. lia.
Qed.

Lemma slice_after_last c s stop :
  has_char c (slice s (rfind s c + 1) stop) = false.
Proof.
  unfold slice. pose proof (rfind_bounds s c) as Hb.
  set (len := Z.of_nat (String.length s)) in *.
  destruct (_ <? _); [|reflexivity].
  apply (has_char_after_last c s 0 (-1)). fold (rfind s c).
  unfold slice_index.
  replace (rfind s c + 1 <? 0) with false
    by (symmetry; apply Z.ltb_ge; lia).
  rewrite Z.min_l by lia. lia.
Qed.

Lemma digits_without c s :
  is_digit c = false -> all_digits s = true -> has_char c s = false.
Proof.
  intros Hc. induction s as [|b s IH]; simpl; [reflexivity|].
  intros H. apply andb_true_iff in H as [Hb Hs]. rewrite (IH Hs).
  destruct (Ascii.eqb_spec b c) as [->|]; [congruence|reflexivity].
Qed.

Lemma format_year_digits y : all_digits (format_year y) = true.
Proof.
  unfold format_year.
  destruct (y <? 10); [|destruct (y <? 100); [|destruct (y <? 1000)]];
    apply zpad_shape.
Qed.

(** X8. The name of the target directory never holds a '/', whatever the
    URL: it is one path component, created in the working directory. *)
Theorem directory_is_one_component (a : Args) (now : datetime) :
  has_char "/" (_determine_directory a now) = false.
Proof.
  assert (Hdefault :
    has_char "/" ("repository-" +:+ strftime now "%Y-%m-%d-%H-%M-%S") = false).
  { rewrite strftime_default, !has_char_app.
    rewrite (digits_without "/" _ eq_refl (format_year_digits _)).
    rewrite !(digits_without "/" (zpad 2 _) eq_refl)
      by apply zpad_shape.
    reflexivity. }
  unfold _determine_directory.
  destruct (repository a) as [[|c u]|]; try exact Hdefault.
  apply slice_after_last.
Qed.

(** X9. A URL with no '/' at all is cut at its last '.': [mid.ext] gives
    [mid], for [rfind] answers -1 and the slice starts at 0. *)
Theorem directory_of_bare_name (a : Args) (now : datetime)
    (mid ext : string) :
  repository a = Some (mid +:+ "." +:+ ext) ->
  has_char "/" mid = false -> has_char "/" ext = false ->
  has_char "." ext = false ->
  _determine_directory a now = mid.
Proof.
  intros Hr Hmid Hext Hdot.
  rewrite (determine_directory_url a now _ Hr)
    by (destruct mid; discriminate).
  change ("." +:+ ext) with (String "." ext).
  rewrite rfind_last by exact Hdot.
  unfold rfind at 1. rewrite rfind_from_absent
    by (rewrite has_char_app; simpl; now rewrite Hmid, Hext).
  exact (slice_middle EmptyString mid (String "." ext)).
Qed.

Lemma directory_of_bare_name_witness :
  _determine_directory (args_url "activity.git") now_sample = "activity".
Proof.
  apply (directory_of_bare_name (args_url "activity.git") now_sample
           "activity" "git"); reflexivity.
Defined.

Lemma slice_drop_last pre mid c :
  slice (pre +:+ mid +:+ String c EmptyString)
        (Z.of_nat (String.length pre)) (-1) = mid.
Proof.
  unfold slice, slice_index. rewrite !string_length_app.
  cbn [String.length].
  replace (Z.of_nat (String.length pre) <? 0) with false
    by (symmetry; apply Z.ltb_ge; lia).
  change (-1 <? 0) with true.
  rewrite Z.min_l, Z.max_r by lia.
  destruct mid as [|b mid].
  - cbn [String.length].
    replace (_ <? _) with false by (symmetry; apply Z.ltb_ge; lia).
    reflexivity.
  - replace (_ <? _) with true
      by (symmetry; apply Z.ltb_lt; cbn [String.length]; lia).
    rewrite Nat2Z.id.
    replace (Z.to_nat _) with (String.length (String b mid))
      by (cbn [String.length]; lia).
    rewrite substring_skip. apply substring_whole.
Qed.

(** X10. A URL with no '.' at all, which ends in an ASCII character,
    loses that character: [rfind] answers -1, which as the end of the slice
    means the last character excluded, and the name is what lies between
    the last '/' and that character.  (A string stands for its bytes; a
    character above 127 takes more than one.) *)
Theorem directory_without_dot_drops_last_character (a : Args)
    (now : datetime) (pre seg : string) (c : ascii) :
  repository a = Some (pre +:+ "/" +:+ seg +:+ String c EmptyString) ->
  has_char "." (pre +:+ "/" +:+ seg +:+ String c EmptyString) = false ->
  has_char "/" (seg +:+ String c EmptyString) = false ->
  (nat_of_ascii c < 128)%nat ->
  _determine_directory a now = seg.
Proof.
  intros Hr Hdot Hslash _.
  rewrite (determine_directory_url a now _ Hr)
    by (destruct pre; discriminate).
  unfold rfind at 2. rewrite rfind_from_absent by exact Hdot.
  change ("/" +:+ seg +:+ String c EmptyString)
    with (String "/" (seg +:+ String c EmptyString)).
  rewrite rfind_last by exact Hslash.
  replace (pre +:+ String "/" (seg +:+ String c EmptyString))
    with ((pre +:+ "/") +:+ seg +:+ String c EmptyString)
    by (rewrite !string_app_assoc; reflexivity).
  replace (Z.of_nat (String.length pre) + 1)
    with (Z.of_nat (String.length (pre +:+ "/")))
    by (rewrite string_length_app; simpl; lia).
  apply slice_drop_last.
Qed.

Lemma directory_without_dot_drops_last_character_witness :
  _determine_directory (args_url "git@host:me/activity") now_sample
  = "activit".
Proof.
  apply (directory_without_dot_drops_last_character
           (args_url "git@host:me/activity") now_sample
           "git@host:me" "activit" "y"); try reflexivity.
  vm_compute. lia.
Defined.

(** X11. An empty directory name ends the script: [os.mkdir] of the empty
    name raises [FileNotFoundError], once the schedule is built and before
    anything is done to the world. *)
Theorem empty_directory_name_is_fatal (a : Args) (now : datetime) (g : rng)
    (w : world) :
  valid_datetime now -> window_representable a now = true ->
  _determine_directory a now = EmptyString ->
  main a now g w = (Raise FileNotFoundError, w).
Proof.
  intros Hv Hw Hdir. unfold main, GitRepository_init, bind, ret.
  rewrite (generate_plan_from a now Hv g Hw).
  unfold setup, _create_and_initialize_repository, bind.
  cbn [directory]. rewrite Hdir. reflexivity.
Qed.

Lemma empty_directory_name_is_fatal_witness :
  main args_no_extension now_sample rng_sample world_free
  = (Raise FileNotFoundError, world_free).
Proof.
  exact (empty_directory_name_is_fatal args_no_extension now_sample
           rng_sample world_free now_sample_valid eq_refl eq_refl).
Defined.

(** * Further properties of the driver *)

Lemma bind_ret_unit {S : Type} (m : SE S unit) (s : S) :
  bind m (fun _ => ret tt) s = m s.
Proof. unfold bind, ret. now destruct (m s) as [[[]|e] s']. Qed.

Lemma run_command_cases commands w :
  _run_command commands w =
  match refusal w (Spawn commands) with
  | Some e => (Raise e, w)
  | None => (Ok tt, after_command commands w)
  end.
Proof.
  unfold _run_command, after_command.
  destruct (refusal w (Spawn commands)); [reflexivity|].
  now destruct (process (env w) commands (cwd w) (fs w) (procs w)).
Qed.

(** What every run of commands keeps, and what it keeps when the commands
    are confined to [.git]. *)
Lemma after_commands_keeps cmds w :
  cwd (after_commands cmds w) = cwd w /\
  env (after_commands cmds w) = env w /\
  procs (after_commands cmds w) = procs w ++ cmds /\
  stdout w `prefix_of` stdout (after_commands cmds w) /\
  (confined_to_git (env w) ->
   forall q, ~ (cwd w ++ [".git"]) `prefix_of` q ->
     fs (after_commands cmds w) !! q = fs w !! q).
Proof.
  revert w. induction cmds as [|c cmds IH]; intros w.
  - simpl. rewrite app_nil_r. repeat split; try reflexivity.
  - cbn [after_commands fold_left]. fold (after_commands cmds (after_command c w)).
    destruct (IH (after_command c w)) as (Hc & He & Hp & Ho & Hf).
    cbn [after_command cwd env procs stdout fs] in *.
    split; [exact Hc|]. split; [exact He|]. split.
    { rewrite Hp, <- app_assoc. reflexivity. }
    split.
    { etransitivity; [|exact Ho]. now apply prefix_app_r. }
    intros Hconf q Hq. rewrite (Hf Hconf q Hq). now apply Hconf.
Qed.

(** A run of commands reaches the world after those that started: all of
    them when it returns, the ones before the refusal when it raises. *)
Lemma run_commands_reach cmds w :
  exists l,
    l `prefix_of` cmds /\
    (for_each cmds _run_command w).2 = after_commands l w /\
    ((for_each cmds _run_command w).1 = Ok tt -> l = cmds).
Proof.
  revert w. induction cmds as [|c cmds IH]; intros w.
  - exists []. simpl. repeat split; reflexivity.
  - cbn [for_each]. unfold bind. rewrite run_command_cases.
    destruct (refusal w (Spawn c)).
    + exists []. simpl. split; [apply prefix_nil|]. split; [reflexivity|].
      discriminate.
    + destruct (IH (after_command c w)) as (l & Hl & Hw & Hok).
      exists (c :: l). split; [now apply prefix_cons|].
      split; [exact Hw|]. intros H. now rewrite (Hok H).
Qed.

Lemma run_commands_obliging cmds w :
  obliging (env w) ->
  for_each cmds _run_command w = (Ok tt, after_commands cmds w).
Proof.
  revert w. induction cmds as [|c cmds IH]; intros w Hob; [reflexivity|].
  cbn [for_each]. unfold bind. rewrite run_command_cases.
  unfold refusal. rewrite Hob. apply IH. exact Hob.
Qed.

(** The commands of the three parts of the driver, as runs of commands. *)
Lemma init_block self w :
  (let! _ := _run_command ["git"; "init"; "-b"; "main"] in
   let! _ :=
     match truthy (user_name (args self)) with
     | Some name => _run_command ["git"; "config"; "user.name"; name]
     | None => ret tt
     end in
   match truthy (user_email (args self)) with
   | Some email => _run_command ["git"; "config"; "user.email"; email]
   | None => ret tt
   end) w =
  for_each (init_commands (args self)) _run_command w.
Proof.
  unfold init_commands.
  destruct (truthy (user_name (args self))), (truthy (user_email (args self)));
    cbn [app for_each]; unfold bind, ret;
    destruct (_run_command ["git"; "init"; "-b"; "main"] w) as [[[]|e] w1];
    try reflexivity;
    repeat match goal with
           | |- context [_run_command ?c ?w0] =>
               destruct (_run_command c w0) as [[[]|?] ?]
           end; reflexivity.
Qed.

Lemma commit_block date w :
  (let! _ := _run_command ["git"; "add"; "."] in
   _run_command
     ["git"; "commit"; "-m"; _generate_commit_message date; "--date";
      strftime date (dquote +:+ "%Y-%m-%d %H:%M:%S" +:+ dquote)]) w =
  for_each (commit_commands date) _run_command w.
Proof.
  unfold commit_commands. cbn [for_each]. unfold bind, ret.
  destruct (_run_command ["git"; "add"; "."] w) as [[[]|e] w1];
    [|reflexivity].
  now destruct (_run_command _ w1) as [[[]|e] w2].
Qed.

Lemma remote_block a w :
  match truthy (repository a) with
  | Some url => _setup_remote_repository url
  | None => ret tt
  end w =
  for_each (remote_commands a) _run_command w.
Proof.
  unfold remote_commands. destruct (truthy (repository a)); [|reflexivity].
  unfold _setup_remote_repository. cbn [for_each]. unfold bind, ret.
  repeat match goal with
         | |- context [_run_command ?c ?w0] =>
             destruct (_run_command c w0) as [[[]|?] ?]
         end; reflexivity.
Qed.

Lemma readme_outside_git d : ~ (d ++ [".git"]) `prefix_of` readme_path d.
Proof.
  unfold readme_path. intros [k Hk]. rewrite <- app_assoc in Hk.
  apply app_inv_head in Hk. discriminate.
Qed.

Lemma contribute_cases date w :
  _contribute date w =
  match fs w !! readme_path (cwd w) with
  | Some Dir => (Raise IsADirectoryError, w)
  | _ =>
      match refusal w (Append (readme_path (cwd w))) with
      | Some e => (Raise e, w)
      | None =>
          for_each (commit_commands date) _run_command (after_append date w)
      end
  end.
Proof.
  unfold _contribute. unfold bind at 1. unfold append_file, readme_path.
  destruct (fs w !! (cwd w ++ ["README.md"])) as [[|content]|] eqn:E;
    [reflexivity|..];
    (destruct (refusal w (Append (cwd w ++ ["README.md"]))); [reflexivity|]);
    rewrite <- commit_block; unfold after_append, readme_path; rewrite E;
    reflexivity.
Qed.

(** One contribution either raises before it has done anything, or appends
    its line and reaches the world after the commands that started. *)
Lemma contribute_reach date w :
  ((_contribute date w).2 = w /\ (_contribute date w).1 <> Ok tt) \/
  (fs w !! readme_path (cwd w) <> Some Dir /\
   exists l,
     l `prefix_of` commit_commands date /\
     (_contribute date w).2 = after_commands l (after_append date w) /\
     ((_contribute date w).1 = Ok tt -> l = commit_commands date)).
Proof.
  rewrite contribute_cases.
  destruct (fs w !! readme_path (cwd w)) as [[|content]|] eqn:E;
    [left; split; [reflexivity|discriminate]|..];
    (destruct (refusal w (Append (readme_path (cwd w))));
     [left; split; [reflexivity|discriminate]|]);
    right; (split; [discriminate|]);
    apply run_commands_reach.
Qed.

Lemma contribute_obliging date w :
  obliging (env w) -> fs w !! readme_path (cwd w) <> Some Dir ->
  _contribute date w =
  (Ok tt, after_commands (commit_commands date) (after_append date w)).
Proof.
  intros Hob Hfile. rewrite contribute_cases.
  destruct (fs w !! readme_path (cwd w)) as [[|content]|] eqn:E;
    [congruence|..]; unfold refusal; rewrite Hob;
    now apply run_commands_obliging.
Qed.

(** The world after the line of [date] and some of its commands. *)
Lemma after_contribution date l w :
  let w' := after_commands l (after_append date w) in
  cwd w' = cwd w /\ env w' = env w /\ procs w' = procs w ++ l /\
  stdout w `prefix_of` stdout w' /\
  (confined_to_git (env w) ->
   fs w' !! readme_path (cwd w) =
     Some (File (file_text (fs w !! readme_path (cwd w)) +:+
                 (_generate_commit_message date +:+ newline +:+ newline))) /\
   forall q, q <> readme_path (cwd w) ->
     ~ (cwd w ++ [".git"]) `prefix_of` q -> fs w' !! q = fs w !! q).
Proof.
  intros w'. subst w'.
  destruct (after_commands_keeps l (after_append date w))
    as (Hc & He & Hp & Ho & Hf).
  cbn [after_append cwd env procs stdout fs] in *.
  repeat split; try assumption.
  - rewrite (Hf H _ (readme_outside_git (cwd w))). apply lookup_insert_eq.
  - intros q Hq Hgit. rewrite (Hf H q Hgit). now apply lookup_insert_ne.
Qed.

(** The contributions of a list of dates, whatever the environment does. *)
Lemma contributions_run dates w :
  let r := for_each dates _contribute w in
  cwd r.2 = cwd w /\ env r.2 = env w /\
  (exists l, l `prefix_of` flat_map commit_commands dates /\
             procs r.2 = procs w ++ l /\
             (r.1 = Ok tt -> l = flat_map commit_commands dates)) /\
  stdout w `prefix_of` stdout r.2 /\
  (confined_to_git (env w) ->
   (forall q, q <> readme_path (cwd w) ->
      ~ (cwd w ++ [".git"]) `prefix_of` q -> fs r.2 !! q = fs w !! q) /\
   (r.1 = Ok tt ->
    file_text (fs r.2 !! readme_path (cwd w)) =
      file_text (fs w !! readme_path (cwd w)) +:+ readme_text dates) /\
   (obliging (env w) -> fs w !! readme_path (cwd w) <> Some Dir ->
    r.1 = Ok tt)).
Proof.
  revert w. induction dates as [|date dates IH]; intros w.
  - cbn [for_each ret flat_map readme_text fst snd].
    split; [reflexivity|]. split; [reflexivity|]. split.
    { exists []. rewrite app_nil_r. repeat split; reflexivity. }
    split; [reflexivity|]. intros _. split; [reflexivity|]. split.
    + intros _. now rewrite string_app_nil_r.
    + reflexivity.
  - cbn [for_each flat_map readme_text]. unfold bind.
    destruct (contribute_reach date w)
      as [[Hw Hr]|(Hfile & l & Hl & Hw & Hok)].
    + destruct (_contribute date w) as [[[]|e] w1] eqn:Estep;
        cbn [fst snd] in *; [congruence|]. subst w1.
      split; [reflexivity|]. split; [reflexivity|]. split.
      { exists []. rewrite app_nil_r.
        split; [apply prefix_nil|]. split; [reflexivity|discriminate]. }
      split; [reflexivity|]. intros _. split; [reflexivity|].
      split; [discriminate|]. intros Hob Hnd.
      rewrite (contribute_obliging date w Hob Hnd) in Estep. discriminate.
    + destruct (after_contribution date l w) as (Hc & He & Hp & Ho & Hf).
      destruct (_contribute date w) as [[[]|e] w1] eqn:Estep;
        cbn [fst snd] in *; subst w1.
      * specialize (Hok eq_refl). subst l.
        set (w1 := after_commands (commit_commands date)
                     (after_append date w)) in *.
        destruct (IH w1) as (Hc' & He' & (l' & Hl' & Hp' & Hok') & Ho' & Hf').
        cbn zeta in *. rewrite Hc, He in *.
        split; [exact Hc'|]. split; [exact He'|]. split.
        { exists (commit_commands date ++ l').
          split; [now apply prefix_app|]. split.
          - rewrite Hp', Hp, <- app_assoc. reflexivity.
          - intros H. now rewrite (Hok' H). }
        split; [etransitivity; eassumption|].
        intros Hconf. destruct (Hf Hconf) as [Hreadme Hframe].
        destruct (Hf' Hconf) as (Hframe' & Htext' & Hob').
        split; [|split].
        -- intros q Hq Hgit. rewrite (Hframe' q Hq Hgit).
           now apply Hframe.
        -- intros H. rewrite (Htext' H), Hreadme. cbn [file_text].
           now rewrite !string_app_assoc.
        -- intros Hob _. apply Hob'; [exact Hob|].
           rewrite Hreadme. discriminate.
      * split; [exact Hc|]. split; [exact He|]. split.
        { exists l. split; [now apply prefix_app_r|].
          split; [exact Hp|discriminate]. }
        split; [exact Ho|]. intros Hconf.
        destruct (Hf Hconf) as [Hreadme Hframe].
        split; [exact Hframe|]. split; [discriminate|].
        intros Hob Hnd.
        pose proof (contribute_obliging date w Hob Hnd) as E.
        rewrite Estep in E. discriminate.
Qed.

Lemma advances_refl w : advances w w [].
Proof.
  unfold advances. rewrite app_nil_r. repeat split; reflexivity.
Qed.

Lemma advances_trans w w1 w2 l1 l2 :
  advances w w1 l1 -> advances w1 w2 l2 -> advances w w2 (l1 ++ l2).
Proof.
  intros (Hc1 & He1 & Hp1 & Ho1 & Hf1) (Hc2 & He2 & Hp2 & Ho2 & Hf2).
  rewrite Hc1, He1 in *. unfold advances.
  split; [congruence|]. split; [congruence|]. split.
  { rewrite Hp2, Hp1, <- app_assoc. reflexivity. }
  split; [etransitivity; eassumption|].
  intros Hconf q Hq Hgit.
  rewrite (Hf2 Hconf q Hq Hgit). now apply Hf1.
Qed.

Lemma runs_bind m1 m2 c1 c2 :
  runs m1 c1 -> runs m2 c2 -> runs (bind m1 (fun _ => m2)) (c1 ++ c2).
Proof.
  intros H1 H2 w. destruct (H1 w) as (l1 & Hl1 & Ha1 & Hok1).
  unfold bind. destruct (m1 w) as [[[]|e] w1]; cbn [fst snd] in *.
  - rewrite (Hok1 eq_refl) in *.
    destruct (H2 w1) as (l2 & Hl2 & Ha2 & Hok2).
    exists (c1 ++ l2). split; [now apply prefix_app|].
    split; [now apply (advances_trans w w1)|].
    intros H. now rewrite (Hok2 H).
  - exists l1. split; [now apply prefix_app_r|]. split; [exact Ha1|].
    discriminate.
Qed.

Lemma runs_commands cmds : runs (for_each cmds _run_command) cmds.
Proof.
  intros w. destruct (run_commands_reach cmds w) as (l & Hl & Hw & Hok).
  exists l. split; [exact Hl|]. split; [|exact Hok].
  rewrite Hw. destruct (after_commands_keeps l w) as (Hc & He & Hp & Ho & Hf).
  unfold advances. repeat split; try assumption.
  intros Hconf q _ Hgit. now apply Hf.
Qed.

Lemma runs_contributions dates :
  runs (for_each dates _contribute) (flat_map commit_commands dates).
Proof.
  intros w.
  destruct (contributions_run dates w)
    as (Hc & He & (l & Hl & Hp & Hok) & Ho & Hf).
  exists l. split; [exact Hl|]. split; [|exact Hok].
  unfold advances. repeat split; try assumption.
  intros Hconf. now destruct (Hf Hconf).
Qed.

Lemma runs_print line : runs (print line) [].
Proof.
  intros w. exists []. split; [reflexivity|]. split; [|reflexivity].
  unfold print. destruct (refusal w (Print line)); cbn [snd];
    [apply advances_refl|].
  unfold advances. cbn [cwd env procs stdout fs]. rewrite app_nil_r.
  repeat split; try reflexivity. now apply prefix_app_r.
Qed.

(** Inside the target directory [setup] runs its commands in order. *)
Lemma runs_setup_inside self : runs (setup_inside self) (all_commands self).
Proof.
  unfold setup_inside, all_commands.
  apply runs_bind; [apply runs_commands|].
  apply runs_bind; [apply runs_contributions|].
  pose proof (runs_bind _ _ _ _
                (runs_commands (remote_commands (args self)))
                (runs_print (newline +:+
                   "Repository generation completed successfully!"))) as H.
  now rewrite app_nil_r in H.
Qed.

Lemma bind_assoc {S A B C : Type} (m : SE S A) (f : A -> SE S B)
    (g : B -> SE S C) (s : S) :
  bind (bind m f) g s = bind m (fun x => bind (f x) g) s.
Proof. unfold bind. now destruct (m s) as [[a|e] s']. Qed.

Lemma bind_cong {S A B : Type} (m m' : SE S A) (f f' : A -> SE S B) (s : S) :
  (forall s0, m s0 = m' s0) -> (forall a s0, f a s0 = f' a s0) ->
  bind m f s = bind m' f' s.
Proof.
  intros Hm Hf. unfold bind. rewrite Hm.
  destruct (m' s) as [[a|e] s']; [apply Hf|reflexivity].
Qed.

(** [setup] is [os.mkdir], [os.chdir] and the rest. *)
Lemma setup_unfold self w :
  setup self w =
  match os_mkdir (directory self) w with
  | (Ok _, w1) =>
      match os_chdir (directory self) w1 with
      | (Ok _, w2) => setup_inside self w2
      | (Raise e, w2) => (Raise e, w2)
      end
  | (Raise e, w1) => (Raise e, w1)
  end.
Proof.
  unfold setup, _create_and_initialize_repository.
  rewrite bind_assoc. unfold bind at 1.
  destruct (os_mkdir (directory self) w) as [[[]|e] w1]; [|reflexivity].
  rewrite bind_assoc. unfold bind at 1.
  destruct (os_chdir (directory self) w1) as [[[]|e] w2]; [|reflexivity].
  unfold setup_inside. apply bind_cong.
  - intros s0. apply init_block.
  - intros _ s0. apply bind_cong; [reflexivity|].
    intros _ s1. apply bind_cong; [|reflexivity].
    intros s2. apply remote_block.
Qed.

(** The ways [os.mkdir] and [os.chdir] of the target directory end. *)
Lemma enter_cases self w :
  let target := cwd w ++ [directory self] in
  let made := mk_world (cwd w) (<[target := Dir]> (fs w)) (procs w)
                (stdout w) (env w) in
  let entered := mk_world target (<[target := Dir]> (fs w)) (procs w)
                   (stdout w) (env w) in
  (exists e, setup self w = (Raise e, w) /\
             (lookup_path w (directory self) = None ->
              directory self <> EmptyString -> ~ obliging (env w))) \/
  (exists e, setup self w = (Raise e, made) /\ ~ obliging (env w)) \/
  (lookup_path w (directory self) = None /\
   setup self w = setup_inside self entered).
Proof.
  intros target made entered. rewrite setup_unfold. unfold os_mkdir.
  destruct (lookup_path w (directory self)) eqn:Hl.
  { left. exists FileExistsError. split; [reflexivity|discriminate]. }
  destruct (bool_decide (directory self = EmptyString)) eqn:Hd.
  { left. exists FileNotFoundError. split; [reflexivity|].
    intros _ Hne. apply bool_decide_eq_true in Hd. contradiction. }
  destruct (refusal w (Mkdir (cwd w ++ [directory self]))) as [e|] eqn:Hm.
  { left. exists e. split; [reflexivity|]. intros _ _ Hob.
    unfold refusal in Hm. rewrite Hob in Hm. discriminate. }
  unfold os_chdir. cbn [cwd fs procs stdout env].
  rewrite lookup_insert_eq. fold target. fold made.
  destruct (refusal made (Chdir target)) as [e|] eqn:Hc.
  { right. left. exists e. split; [reflexivity|]. intros Hob.
    unfold refusal in Hc. cbn [env] in Hc. rewrite Hob in Hc.
    discriminate. }
  right. right. split; reflexivity.
Qed.

Lemma prefix_of_stdout (l1 l2 : list string) :
  l1 `prefix_of` l2 -> exists out, l2 = l1 ++ out.
Proof. intros [k Hk]. now exists k. Qed.

(** Inside the target directory, when the environment refuses nothing and
    its commands are confined to [.git], [setup] returns. *)
Lemma setup_inside_obliging self w :
  obliging (env w) -> confined_to_git (env w) ->
  fs w !! readme_path (cwd w) <> Some Dir ->
  exists w',
    setup_inside self w = (Ok tt, w') /\
    advances w w' (all_commands self) /\
    (exists out, stdout w' = stdout w ++ out ++ [notice]) /\
    file_text (fs w' !! readme_path (cwd w)) =
      file_text (fs w !! readme_path (cwd w))
      +:+ readme_text (commit_dates self).
Proof.
  intros Hob Hconf Hfile.
  assert (Hok : exists w', setup_inside self w = (Ok tt, w') /\
            (exists out, stdout w' = stdout w ++ out ++ [notice]) /\
            file_text (fs w' !! readme_path (cwd w)) =
              file_text (fs w !! readme_path (cwd w))
              +:+ readme_text (commit_dates self)).
  { unfold setup_inside. unfold bind at 1.
    rewrite (run_commands_obliging _ w Hob).
    set (w1 := after_commands (init_commands (args self)) w).
    destruct (after_commands_keeps (init_commands (args self)) w)
      as (Hc1 & He1 & _ & Ho1 & Hf1). fold w1 in Hc1, He1, Ho1, Hf1.
    pose proof (Hf1 Hconf _ (readme_outside_git (cwd w))) as Hr1.
    unfold bind at 1.
    destruct (contributions_run (commit_dates self) w1)
      as (Hc2 & He2 & _ & Ho2 & Hf2).
    rewrite Hc1, He1 in *.
    destruct (Hf2 Hconf) as (_ & Htext & Hret).
    assert (Hr : (for_each (commit_dates self) _contribute w1).1 = Ok tt)
      by (apply Hret; [exact Hob|now rewrite Hr1]).
    specialize (Htext Hr).
    destruct (for_each (commit_dates self) _contribute w1) as [r w2].
    cbn [fst snd] in *. subst r.
    unfold bind at 1.
    rewrite (run_commands_obliging _ w2) by (now rewrite He2).
    set (w3 := after_commands (remote_commands (args self)) w2).
    destruct (after_commands_keeps (remote_commands (args self)) w2)
      as (Hc3 & He3 & _ & Ho3 & Hf3). fold w3 in Hc3, He3, Ho3, Hf3.
    rewrite Hc2, He2 in *.
    pose proof (Hf3 Hconf _ (readme_outside_git (cwd w))) as Hr3.
    unfold print, refusal. rewrite He3, Hob.
    eexists. split; [reflexivity|]. cbn [stdout fs]. split.
    - assert (Hpre : stdout w `prefix_of` stdout w3)
        by (etransitivity; [exact Ho1|]; etransitivity; eassumption).
      destruct Hpre as [out Hout]. exists out.
      now rewrite Hout, <- app_assoc.
    - now rewrite Hr3, Htext, Hr1. }
  destruct Hok as (w' & Hrun & Hout & Htext).
  exists w'. split; [exact Hrun|].
  destruct (runs_setup_inside self w) as (l & _ & Hadv & Hl).
  rewrite Hrun in Hadv, Hl. cbn [fst snd] in *.
  rewrite (Hl eq_refl) in Hadv.
  split; [exact Hadv|]. split; assumption.
Qed.

(** [setup] where nothing has the name of the target directory, in an
    environment that refuses nothing and whose commands are confined to
    [.git]. *)
Lemma setup_in_free_place self w :
  lookup_path w (directory self) = None ->
  directory self <> EmptyString ->
  fs w !! readme_path (cwd w ++ [directory self]) = None ->
  obliging (env w) -> confined_to_git (env w) ->
  exists w' out,
    setup self w = (Ok tt, w') /\
    cwd w' = cwd w ++ [directory self] /\
    fs w' !! (cwd w ++ [directory self]) = Some Dir /\
    file_text (fs w' !! readme_path (cwd w ++ [directory self])) =
      readme_text (commit_dates self) /\
    procs w' = procs w ++ all_commands self /\
    stdout w' = stdout w ++ out ++ [notice].
Proof.
  intros Hfree Hname Hreadme Hob Hconf.
  set (target := cwd w ++ [directory self]) in *.
  assert (Hne : target <> readme_path target).
  { unfold readme_path. intros E. apply (f_equal length) in E.
    rewrite length_app in E. simpl in E. lia. }
  destruct (enter_cases self w)
    as [(e & _ & Hno)|[(e & _ & Hno)|[_ Hrun]]];
    [exfalso; now apply (Hno Hfree Hname)|contradiction|].
  fold target in Hrun.
  set (entered := mk_world target (<[target := Dir]> (fs w)) (procs w)
                    (stdout w) (env w)) in *.
  destruct (setup_inside_obliging self entered)
    as (w' & Hin & (Hc & He & Hp & _ & Hf) & (out & Hout) & Htext).
  { exact Hob. }
  { exact Hconf. }
  { cbn [cwd fs entered]. rewrite lookup_insert_ne by exact Hne.
    rewrite Hreadme. discriminate. }
  cbn [cwd fs procs stdout env entered] in *.
  exists w', out. split; [now rewrite Hrun|]. split; [exact Hc|]. split.
  { rewrite (Hf Hconf target Hne).
    - apply lookup_insert_eq.
    - intros [k Hk]. apply (f_equal length) in Hk.
      rewrite !length_app in Hk. simpl in Hk. lia. }
  split.
  { rewrite Htext, lookup_insert_ne by exact Hne. now rewrite Hreadme. }
  split; assumption.
Qed.

Lemma git_environment_obliging : obliging git_environment.
Proof. intros c d f p. reflexivity. Qed.

Lemma git_environment_confined : confined_to_git git_environment.
Proof.
  intros commands d f p q Hq. cbn [git_environment process fst].
  apply lookup_insert_ne. intros <-. now apply Hq.
Qed.

(** X12. The contributions of a list of dates.  Whatever the environment
    does, they stay in the working directory and run [git add] and
    [git commit] for the dates in order, up to the first call that raises.
    When the commands are confined to [.git] nothing changes but
    [README.md] and what lies under [.git], and on return [README.md] has
    gained one line and one blank line for each date, in order.  When
    moreover the operating system refuses nothing and [README.md] is not a
    directory, they do return. *)
Theorem contributions_compose (dates : list datetime) (w : world) :
  cwd (for_each dates _contribute w).2 = cwd w /\
  (exists l,
     l `prefix_of` flat_map commit_commands dates /\
     procs (for_each dates _contribute w).2 = procs w ++ l /\
     ((for_each dates _contribute w).1 = Ok tt ->
      l = flat_map commit_commands dates)) /\
  (confined_to_git (env w) ->
   (forall q, q <> readme_path (cwd w) ->
      ~ (cwd w ++ [".git"]) `prefix_of` q ->
      fs (for_each dates _contribute w).2 !! q = fs w !! q) /\
   ((for_each dates _contribute w).1 = Ok tt ->
    file_text (fs (for_each dates _contribute w).2 !! readme_path (cwd w)) =
      file_text (fs w !! readme_path (cwd w)) +:+ readme_text dates) /\
   (obliging (env w) -> fs w !! readme_path (cwd w) <> Some Dir ->
    (for_each dates _contribute w).1 = Ok tt)).
Proof.
  destruct (contributions_run dates w) as (Hc & _ & Hp & _ & Hf).
  split; [exact Hc|]. split; [exact Hp|exact Hf].
Qed.

Lemma contributions_compose_witness :
  (for_each [stamp now_sample 738998 0; stamp now_sample 738998 1]
     _contribute world_git).1 = Ok tt /\
  file_text
    (fs (for_each [stamp now_sample 738998 0; stamp now_sample 738998 1]
           _contribute world_git).2 !! ["home"; "README.md"]) =
    "Contribution: 2024-04-22 20:00" +:+ newline +:+ newline +:+
    "Contribution: 2024-04-22 20:01" +:+ newline +:+ newline.
Proof.
  destruct (contributions_compose
              [stamp now_sample 738998 0; stamp now_sample 738998 1]
              world_git) as (_ & _ & H).
  destruct (H git_environment_confined) as (_ & Htext & Hret).
  assert (Hok := Hret git_environment_obliging
                   ltac:(vm_compute; discriminate)).
  split; [exact Hok|exact (Htext Hok)].
Defined.

(** X13. A run of [setup] in a free place, in an environment that refuses
    nothing (names short enough, permissions there, [git] installed) and
    whose commands are confined to [.git]: when nothing has the name of the
    target directory, which is not empty, [setup] returns; it has made the
    directory and entered it, it has run the commands of the
    initialisation, then [git add] and [git commit] for each date, then
    those of the remote when a URL is given, [README.md] holds the lines of
    the dates, and the notice is the last line of the output. *)
Theorem setup_succeeds (self : GitRepository) (w : world) :
  lookup_path w (directory self) = None ->
  directory self <> EmptyString ->
  fs w !! readme_path (cwd w ++ [directory self]) = None ->
  obliging (env w) -> confined_to_git (env w) ->
  exists w' out,
    setup self w = (Ok tt, w') /\
    cwd w' = cwd w ++ [directory self] /\
    fs w' !! (cwd w ++ [directory self]) = Some Dir /\
    file_text (fs w' !! readme_path (cwd w ++ [directory self])) =
      readme_text (commit_dates self) /\
    procs w' = procs w ++ all_commands self /\
    stdout w' = stdout w ++ out ++ [notice].
Proof. exact (setup_in_free_place self w). Qed.

Lemma setup_succeeds_witness :
  exists w' out,
    setup repo_sample world_git = (Ok tt, w') /\
    cwd w' = ["home"; "bar-project"] /\
    length (procs w') = 6%nat /\
    stdout w' = [] ++ out ++ [notice].
Proof.
  destruct (setup_succeeds repo_sample world_git eq_refl
              ltac:(discriminate) eq_refl git_environment_obliging
              git_environment_confined)
    as (w' & out & Hrun & Hcwd & _ & _ & Hprocs & Hout).
  exists w', out. split; [exact Hrun|]. split; [exact Hcwd|].
  split; [now rewrite Hprocs|exact Hout].
Defined.

(** X14. Whatever its outcome and whatever the operating system refuses,
    [setup] runs its commands in order up to the first call that raises,
    and leaves the working directory where it was or in the target
    directory; when the commands are confined to the [.git] of the
    directory they run in, nothing outside the target directory changes. *)
Theorem setup_touches_only_its_directory (self : GitRepository) (w : world) :
  (cwd (setup self w).2 = cwd w \/
   cwd (setup self w).2 = cwd w ++ [directory self]) /\
  (exists l,
     l `prefix_of` all_commands self /\
     procs (setup self w).2 = procs w ++ l /\
     ((setup self w).1 = Ok tt -> l = all_commands self)) /\
  (confined_to_git (env w) ->
   forall q, ~ (cwd w ++ [directory self]) `prefix_of` q ->
     fs (setup self w).2 !! q = fs w !! q).
Proof.
  set (target := cwd w ++ [directory self]).
  assert (Hnone : exists l : list (list string),
            l `prefix_of` all_commands self /\
            procs w = procs w ++ l /\
            (@Raise unit FileExistsError = Ok tt -> l = all_commands self)).
  { exists []. rewrite app_nil_r.
    split; [apply prefix_nil|]. split; [reflexivity|discriminate]. }
  destruct (enter_cases self w)
    as [(e & Hrun & _)|[(e & Hrun & _)|[_ Hrun]]]; rewrite Hrun;
    cbn [fst snd cwd procs fs].
  - split; [now left|]. split; [|reflexivity].
    destruct Hnone as (l & Hl & Hp & _). exists l.
    split; [exact Hl|]. split; [exact Hp|discriminate].
  - split; [now left|]. split.
    + destruct Hnone as (l & Hl & Hp & _). exists l.
      split; [exact Hl|]. split; [exact Hp|discriminate].
    + intros _ q Hq. apply lookup_insert_ne. intros <-. now apply Hq.
  - fold target.
    set (entered := mk_world target (<[target := Dir]> (fs w)) (procs w)
                      (stdout w) (env w)).
    destruct (runs_setup_inside self entered)
      as (l & Hl & (Hc & He & Hp & _ & Hf) & Hok).
    cbn [cwd fs procs env entered] in *.
    split; [now right|]. split.
    + exists l. split; [exact Hl|]. split; [exact Hp|exact Hok].
    + intros Hconf q Hq. rewrite (Hf Hconf q).
      * apply lookup_insert_ne. intros <-. now apply Hq.
      * intros ->. apply Hq. unfold readme_path. now apply prefix_app_r.
      * intros [k Hk]. apply Hq. exists ([".git"] ++ k).
        now rewrite Hk, <- app_assoc.
Qed.

Lemma setup_touches_only_its_directory_witness :
  fs (setup repo_sample world_git).2 !! ["home"; "other"] = None /\
  fs (setup repo_sample world_git).2 !! ["home"; "bar-project"; ".git"]
  = Some Dir.
Proof.
  destruct (setup_touches_only_its_directory repo_sample world_git)
    as (_ & _ & H).
  split.
  - exact (H git_environment_confined ["home"; "other"]
             ltac:(intros [k Hk]; discriminate)).
  - vm_compute. reflexivity.
Defined.





(** * The days of the schedule, one by one *)

Lemma plan_from_app a o0 l1 l2 g :
  plan_from a o0 (l1 ++ l2) g =
  ((plan_from a o0 l1 g).1 ++ (plan_from a o0 l2 (plan_from a o0 l1 g).2).1,
   (plan_from a o0 l2 (plan_from a o0 l1 g).2).2).
Proof.
  revert g. induction l1 as [|n l1 IH]; intros g; cbn [app plan_from].
  - cbn [fst snd app]. now destruct (plan_from a o0 l2 g).
  - destruct (weekday_ok a (o0 + n)); [|apply IH].
    destruct (day_draw g <? frequency a); [|apply IH].
    rewrite IH. now destruct (plan_from a o0 l1 (advance g 3)).
Qed.

Lemma plan_from_days a o0 ns g :
  Forall (fun nk => In nk.1 ns) (plan_from a o0 ns g).1.
Proof.
  revert g. induction ns as [|n ns IH]; intros g; cbn [plan_from].
  - constructor.
  - assert (Hrest : forall g0,
              Forall (fun nk => In nk.1 (n :: ns)) (plan_from a o0 ns g0).1).
    { intros g0. eapply Forall_impl; [apply IH|]. intros nk H. now right. }
    destruct (weekday_ok a (o0 + n)); [|apply Hrest].
    destruct (day_draw g <? frequency a); [|apply Hrest].
    specialize (Hrest (advance g 3)).
    destruct (plan_from a o0 ns (advance g 3)) as [plan g']. simpl in *.
    constructor; [now left|exact Hrest].
Qed.

Lemma dates_on_day_block now o o' k :
  dates_on o (day_block now o' k) =
  if o' =? o then day_block now o' k else [].
Proof.
  unfold dates_on, day_block. generalize (range k) as ms.
  induction ms as [|m ms IH]; simpl.
  - now destruct (o' =? o).
  - rewrite IH. now destruct (o' =? o).
Qed.

Lemma dates_on_none now o0 o plan :
  Forall (fun nk => o0 + nk.1 <> o) plan ->
  dates_on o (schedule_of now o0 plan) = [].
Proof.
  induction 1 as [|[n k] plan Hn _ IH]; simpl; [reflexivity|].
  unfold dates_on in *. rewrite List.filter_app, IH, app_nil_r.
  fold (dates_on o (day_block now (o0 + n) k)).
  rewrite dates_on_day_block.
  simpl in Hn. now replace (o0 + n =? o) with false
    by (symmetry; now apply Z.eqb_neq).
Qed.

Lemma commits_on_dates_on o sched :
  commits_on o sched = Z.of_nat (length (dates_on o sched)).
Proof.
  unfold dates_on. induction sched as [|d sched IH]; simpl; [reflexivity|].
  rewrite IH. destruct (ordinal d =? o); simpl; lia.
Qed.

Section Days.

Variable a : Args.
Variable now : datetime.
Hypothesis now_valid : valid_datetime now.
Hypothesis window_ok : window_representable a now = true.

Lemma source_before_plan g n :
  0 <= n <= days_before a + days_after a ->
  source_before a now g n =
  (plan_from a (first_day a now) (range n) g).2.
Proof.
  intros Hn. apply window_representable_iff in window_ok as [H0 HN].
  unfold source_before.
  change (shift_days (anchor now) (- days_before a))
    with (stamp now (ordinal now + - days_before a) 0).
  replace (ordinal now + - days_before a) with (first_day a now)
    by (unfold first_day; lia).
  rewrite (days_loop_plan_from a now now_valid _ _ [] g H0); [reflexivity|].
  apply Forall_forall. intros m Hm. rewrite Forall_forall in HN. apply HN.
  apply list_elem_of_In, range_In. apply list_elem_of_In, range_In in Hm.
  lia.
Qed.

(** The dates of the day of index [n] in the schedule: those of its step,
    taken from the source as the loop finds it there. *)
Lemma day_of_schedule g n :
  0 <= n < days_before a + days_after a ->
  let gn := source_before a now g n in
  let o := first_day a now + n in
  exists sched,
    (_generate_commit_dates a now g).1 = Ok sched /\
    dates_on o sched =
      (if weekday_ok a o && (day_draw gn <? frequency a)
       then day_block now o (day_count a (advance gn 1)) else []) /\
    source_before a now g (n + 1) =
      (if weekday_ok a o
       then if day_draw gn <? frequency a then advance gn 3 else advance gn 1
       else gn).
Proof.
  intros Hn gn o. subst o.
  set (o := first_day a now + n).
  set (N := days_before a + days_after a) in *.
  assert (Hsplit : range N = range n ++ n :: seqZ (n + 1) (N - n - 1)).
  { unfold range. replace N with (n + (N - n)) at 1 by lia.
    rewrite seqZ_app by lia. rewrite (seqZ_cons (0 + n)) by lia.
    repeat f_equal; lia. }
  assert (Hnext : range (n + 1) = range n ++ [n]).
  { unfold range. rewrite seqZ_app by lia.
    rewrite (seqZ_cons (0 + n)) by lia.
    rewrite (seqZ_nil (Z.succ (0 + n))) by lia. now rewrite Z.add_0_l. }
  subst gn. rewrite !source_before_plan by lia.
  rewrite (generate_plan_from a now now_valid g window_ok). fold N.
  eexists. split; [reflexivity|].
  rewrite Hsplit, Hnext, !plan_from_app.
  set (g1 := (plan_from a (first_day a now) (range n) g).2).
  cbn [plan_from fst snd]. fold o.
  assert (Hbefore : dates_on o (schedule_of now (first_day a now)
                      (plan_from a (first_day a now) (range n) g).1) = []).
  { apply dates_on_none.
    eapply Forall_impl; [apply plan_from_days|].
    intros nk Hin. apply range_In in Hin. subst o. lia. }
  assert (Hafter : forall g0,
            dates_on o (schedule_of now (first_day a now)
              (plan_from a (first_day a now) (seqZ (n + 1) (N - n - 1)) g0).1)
            = []).
  { intros g0. apply dates_on_none.
    eapply Forall_impl; [apply plan_from_days|].
    intros nk Hin. apply list_elem_of_In, elem_of_seqZ in Hin.
    subst o. lia. }
  assert (Happ : forall p q,
            dates_on o (schedule_of now (first_day a now) (p ++ q)) =
            dates_on o (schedule_of now (first_day a now) p)
            ++ dates_on o (schedule_of now (first_day a now) q)).
  { intros p q. unfold dates_on, schedule_of.
    now rewrite flat_map_app, List.filter_app. }
  rewrite Happ, Hbefore. cbn [app].
  destruct (weekday_ok a o); cbn [andb].
  - destruct (day_draw g1 <? frequency a).
    + destruct (plan_from a (first_day a now) (seqZ (n + 1) (N - n - 1))
                  (advance g1 3)) as [p3 g3] eqn:E3.
      cbn [fst snd]. split; [|reflexivity].
      change ((n, day_count a (advance g1 1)) :: p3)
        with ([(n, day_count a (advance g1 1))] ++ p3).
      rewrite Happ.
      pose proof (Hafter (advance g1 3)) as H3. rewrite E3 in H3.
      cbn [fst] in H3. rewrite H3, app_nil_r.
      unfold schedule_of. cbn [flat_map fst snd]. rewrite app_nil_r.
      fold o. now rewrite dates_on_day_block, Z.eqb_refl.
    + split; [apply Hafter|reflexivity].
  - split; [apply Hafter|reflexivity].
Qed.

End Days.

(** The draws of one day, from any source. *)
Lemma draws_of_a_day (a : Args) (now : datetime) (g : rng) (o : Z)
    (acc : list datetime) :
  valid_datetime now -> in_range o = true ->
  _contributions_per_day a g = (Ok (day_bound a g), advance g 1) /\
  randint 1 (day_bound a g) (advance g 1) =
    (Ok (day_count a g), advance g 2) /\
  day_commits a (stamp now o 0) acc g =
    (Ok (acc ++ day_block now o (day_count a g)), advance g 2) /\
  Z.of_nat (length (day_block now o (day_count a g))) = day_count a g /\
  day_bound a g = randint_value 1 (clamp (max_commits a)) (draw g 0) /\
  day_count a g = randint_value 1 (day_bound a g) (draw g 1) /\
  1 <= day_bound a g <= clamp (max_commits a) /\
  1 <= day_count a g <= day_bound a g /\
  (forall B k,
     1 <= B <= clamp (max_commits a) -> 1 <= k <= B ->
     exists g', day_bound a g' = B /\ day_count a g' = k) /\
  (forall lo hi v, lo <= v <= hi ->
     forall r, 0 <= r <= hi - lo -> (randint_value lo hi r = v <-> r = v - lo)).
Proof.
  intros Hv Ho.
  pose proof (clamp_bounds (max_commits a)) as Hc.
  pose proof (day_bound_bounds a g) as Hb.
  pose proof (day_count_bounds a g) as Hk.
  repeat split; try lia.
  - unfold _contributions_per_day. fold (clamp (max_commits a)).
    now rewrite randint_eq by lia.
  - rewrite randint_eq by lia. now rewrite draw_advance, advance_advance.
  - now apply day_commits_eq.
  - apply day_block_length. lia.
  - intros B k HB Hkb.
    exists (mk_rng (fun i => match i with O => B - 1 | _ => k - 1 end) 0).
    assert (E : day_bound a (mk_rng (fun i => match i with O => B - 1
                                              | _ => k - 1 end) 0) = B).
    { unfold day_bound, draw. simpl. apply randint_value_onto. lia. }
    split; [exact E|]. unfold day_count. rewrite E.
    unfold draw. simpl. apply randint_value_onto. lia.
  - intros <-. apply (randint_value_inj lo hi); [lia| |].
    + pose proof (randint_value_bounds lo hi r). lia.
    + rewrite randint_value_onto; [reflexivity|].
      apply randint_value_bounds. lia.
  - intros ->. now apply randint_value_onto.
Qed.


(** The count of an included day and of every day of the schedule. *)
Lemma counts_clamped (a : Args) (now : datetime) (g : rng) :
  valid_datetime now ->
  (forall o acc,
     in_range o = true ->
     (day_included a (stamp now o 0) g).1 = Ok true ->
     exists k,
       day_step a (stamp now o 0) acc g =
         (Ok (acc ++ day_block now o k), advance g 3) /\
       Z.of_nat (length (day_block now o k)) = k /\
       1 <= k <= clamp (max_commits a)) /\
  match (_generate_commit_dates a now g).1 with
  | Ok sched =>
      forall o, commits_on o sched = 0 \/
                1 <= commits_on o sched <= clamp (max_commits a)
  | Raise e => e = OverflowError /\ window_representable a now = false
  end /\
  1 <= clamp (max_commits a) <= 20 /\
  (max_commits a <= 0 -> clamp (max_commits a) = 1) /\
  (20 < max_commits a -> clamp (max_commits a) = 20).
Proof.
  intros Hv. split; [|split; [|split; [|split]]].
  - intros o acc Ho Hinc. rewrite (day_included_eq a now) in Hinc.
    exists (day_count a (advance g 1)).
    pose proof (day_bound_bounds a (advance g 1)) as Hb.
    pose proof (day_count_bounds a (advance g 1)) as Hk.
    split; [|split; [apply day_block_length|]; lia].
    rewrite (day_step_eq a now Hv) by exact Ho.
    destruct (negb (no_weekends a) || ((o + 6) mod 7 <? 5));
      simpl in Hinc; [|discriminate].
    injection Hinc as ->. reflexivity.
  - pose proof (generate_plan a now Hv g) as H.
    destruct (_generate_commit_dates a now g).1 as [sched|e]; [|exact H].
    destruct H as (plan & -> & Hs & _ & Hok & _). intros o.
    apply commits_on_schedule; [exact Hs|].
    eapply Forall_impl; [exact Hok|]. intros nk (_ & Hk & _). exact Hk.
  - apply clamp_bounds.
  - unfold clamp. lia.
  - unfold clamp. lia.
Qed.


(** The test of one day, from any source. *)
Lemma test_of_a_day (a : Args) (now : datetime)
    (g : rng) (day : datetime) :
  valid_datetime now ->
  no_weekends a = false \/ weekday day < 5 ->
  0 <= day_draw g <= 100 /\
  day_included a day g = (Ok (day_draw g <? frequency a), advance g 1) /\
  (forall o acc, day = stamp now o 0 -> in_range o = true ->
     (day_draw g < frequency a ->
      exists k, 1 <= k /\
        day_step a day acc g = (Ok (acc ++ day_block now o k), advance g 3)) /\
     (frequency a <= day_draw g ->
      day_step a day acc g = (Ok acc, advance g 1))) /\
  (frequency a <= 0 ->
   match (_generate_commit_dates a now g).1 with
   | Ok sched => sched = []
   | Raise e => e = OverflowError /\ window_representable a now = false
   end) /\
  (frequency a = 100 ->
   (day_included a day g = (Ok false, advance g 1) <-> day_draw g = 100)) /\
  (forall v, 0 <= v <= 100 ->
     forall r, 0 <= r <= 100 -> (randint_value 0 100 r = v <-> r = v)).
Proof.
  intros Hv Hday.
  assert (Hd : 0 <= day_draw g <= 100)
    by (apply (randint_value_bounds 0 100); lia).
  assert (Hw : negb (no_weekends a) || (weekday day <? 5) = true).
  { destruct Hday as [->|H]; [reflexivity|].
    apply orb_true_iff. right. now apply Z.ltb_lt. }
  assert (Hinc : day_included a day g =
                 (Ok (day_draw g <? frequency a), advance g 1)).
  { unfold day_included. rewrite Hw. unfold bind.
    now rewrite randint_eq by lia. }
  split; [exact Hd|]. split; [exact Hinc|].
  split; [|split; [|split]].
  - intros o acc -> Ho.
    assert (Hw' : negb (no_weekends a) || ((o + 6) mod 7 <? 5) = true)
      by exact Hw.
    rewrite (day_step_eq a now Hv) by exact Ho. rewrite Hw'. cbn [andb].
    split; intros Hfr.
    + exists (day_count a (advance g 1)).
      pose proof (day_count_bounds a (advance g 1)).
      split; [lia|].
      now replace (day_draw g <? frequency a) with true
        by (symmetry; apply Z.ltb_lt; lia).
    + now replace (day_draw g <? frequency a) with false
        by (symmetry; apply Z.ltb_ge; lia).
  - intros Hfr. pose proof (generate_plan a now Hv g) as H.
    destruct (_generate_commit_dates a now g).1 as [sched|e]; [|exact H].
    destruct H as (plan & -> & _ & _ & Hok & _).
    destruct plan as [|nk plan]; [reflexivity|].
    apply Forall_cons in Hok as [(_ & _ & _ & Hpos) _]. lia.
  - intros Hfr. rewrite Hinc, Hfr. split.
    + intros E. injection E as E. apply Z.ltb_ge in E. lia.
    + intros E. rewrite E. reflexivity.
  - intros v Hvr r Hr. unfold randint_value.
    rewrite Z.mod_small by lia. lia.
Qed.


(** * The days of the window, as [_generate_commit_dates] runs them *)

Lemma included_cases a now o g :
  (day_included a (stamp now o 0) g).1 =
  Ok (weekday_ok a o && (day_draw g <? frequency a)).
Proof.
  rewrite (day_included_eq a now). unfold weekday_ok.
  now destruct (negb (no_weekends a) || _).
Qed.

Lemma weekday_ok_iff a now o :
  weekday_ok a o = true <->
  no_weekends a = false \/ weekday (stamp now o 0) < 5.
Proof.
  unfold weekday_ok, weekday. cbn [stamp ordinal].
  rewrite orb_true_iff, negb_true_iff, Z.ltb_lt. tauto.
Qed.

Lemma dates_on_In o sched :
  (exists d, In d sched /\ ordinal d = o) <-> 1 <= commits_on o sched.
Proof.
  rewrite commits_on_dates_on. unfold dates_on. split.
  - intros (d & Hd & Ho).
    assert (Hin : In d (List.filter (fun d => ordinal d =? o) sched)).
    { apply List.filter_In. split; [exact Hd|]. now apply Z.eqb_eq. }
    destruct (List.filter _ sched); [destruct Hin|simpl; lia].
  - intros Hlen.
    destruct (List.filter (fun d => ordinal d =? o) sched) as [|d l] eqn:E;
      [simpl in Hlen; lia|].
    assert (Hin : In d (List.filter (fun d => ordinal d =? o) sched))
      by (rewrite E; now left).
    apply List.filter_In in Hin as [Hd Ho]. exists d.
    split; [exact Hd|]. now apply Z.eqb_eq.
Qed.

Lemma source_before_0 a now g : source_before a now g 0 = g.
Proof. reflexivity. Qed.

(** When [_generate_commit_dates] returns, the dates of each day of the
    window in its result are those that [day_step] appends for that day, from
    the source the loop has reached there, and the loop goes on from the
    source [day_step] leaves. *)
Lemma schedule_days (a : Args) (now : datetime) (g : rng) :
  valid_datetime now ->
  match (_generate_commit_dates a now g).1 with
  | Ok sched =>
      forall n, 0 <= n < days_before a + days_after a ->
        let gn := source_before a now g n in
        let o := first_day a now + n in
        in_range o = true /\
        day_step a (stamp now o 0) [] gn =
          (Ok (dates_on o sched), source_before a now g (n + 1)) /\
        dates_on o sched =
          (if weekday_ok a o && (day_draw gn <? frequency a)
           then day_block now o (day_count a (advance gn 1)) else []) /\
        commits_on o sched =
          (if weekday_ok a o && (day_draw gn <? frequency a)
           then day_count a (advance gn 1) else 0) /\
        source_before a now g (n + 1) =
          (if weekday_ok a o
           then if day_draw gn <? frequency a
                then advance gn 3 else advance gn 1
           else gn)
  | Raise e => e = OverflowError /\ window_representable a now = false
  end.
Proof.
  intros Hv. pose proof (generate_plan a now Hv g) as H.
  destruct (_generate_commit_dates a now g).1 as [sched|e] eqn:E; [|exact H].
  destruct H as (_ & _ & _ & _ & _ & Hw).
  intros n Hn gn o.
  destruct (day_of_schedule a now Hv Hw g n Hn) as (sched' & E' & Hd & Hs).
  rewrite E in E'. injection E' as <-.
  assert (Ho : in_range o = true).
  { apply window_representable_iff in Hw as [_ HN].
    rewrite Forall_forall in HN. apply HN, list_elem_of_In, range_In. lia. }
  fold gn o in Hd, Hs.
  split; [exact Ho|]. split; [|split; [exact Hd|split; [|exact Hs]]].
  - rewrite (day_step_eq a now Hv) by exact Ho.
    fold (weekday_ok a o). rewrite Hd, Hs.
    destruct (weekday_ok a o); cbn [andb]; [|reflexivity].
    now destruct (day_draw gn <? frequency a).
  - rewrite commits_on_dates_on, Hd.
    destruct (weekday_ok a o && (day_draw gn <? frequency a));
      [|reflexivity].
    apply day_block_length. pose proof (day_count_bounds a (advance gn 1)).
    lia.
Qed.

(** * The commits of a day *)

(** C2. The count of an included day is drawn twice.  From any source,
    [_contributions_per_day] draws a bound [B] in [1, clamp(max_commits)],
    a second [randint(1, B)] draws the count, and [day_commits] appends
    that many dates; the two draws are consecutive and distinct draws of the
    source, each takes every value of its range, and every pair of a bound
    and a count below it is drawn from some source.  In the schedule
    [_generate_commit_dates] returns, the dates of every included day of the
    window are those [day_step] appends from the source the loop has there:
    as many as the count drawn at the third draw of the day, below the bound
    drawn at the second by a call to [_contributions_per_day] of its own,
    after the draw of the inclusion test; the loop goes on three draws
    later.  On a window whose first day is tested, with [frequency > 0],
    every bound and every count below it are the bound and the number of
    dates of that day in the schedule of some source. *)
Theorem count_is_drawn_twice (a : Args) (now : datetime) (g : rng) (o : Z)
    (acc : list datetime) :
  valid_datetime now -> in_range o = true ->
  (_contributions_per_day a g = (Ok (day_bound a g), advance g 1) /\
  randint 1 (day_bound a g) (advance g 1) =
    (Ok (day_count a g), advance g 2) /\
  day_commits a (stamp now o 0) acc g =
    (Ok (acc ++ day_block now o (day_count a g)), advance g 2) /\
  Z.of_nat (length (day_block now o (day_count a g))) = day_count a g /\
  day_bound a g = randint_value 1 (clamp (max_commits a)) (draw g 0) /\
  day_count a g = randint_value 1 (day_bound a g) (draw g 1) /\
  1 <= day_bound a g <= clamp (max_commits a) /\
  1 <= day_count a g <= day_bound a g /\
  (forall B k,
     1 <= B <= clamp (max_commits a) -> 1 <= k <= B ->
     exists g', day_bound a g' = B /\ day_count a g' = k) /\
  (forall lo hi v, lo <= v <= hi ->
     forall r, 0 <= r <= hi - lo -> (randint_value lo hi r = v <-> r = v - lo))) /\
  match (_generate_commit_dates a now g).1 with
  | Ok sched =>
      forall n, 0 <= n < days_before a + days_after a ->
        let gn := source_before a now g n in
        let d := first_day a now + n in
        (day_included a (stamp now d 0) gn).1 = Ok true ->
        _contributions_per_day a (advance gn 1) =
          (Ok (day_bound a (advance gn 1)), advance gn 2) /\
        randint 1 (day_bound a (advance gn 1)) (advance gn 2) =
          (Ok (day_count a (advance gn 1)), advance gn 3) /\
        day_step a (stamp now d 0) [] gn =
          (Ok (dates_on d sched), advance gn 3) /\
        source_before a now g (n + 1) = advance gn 3 /\
        dates_on d sched = day_block now d (day_count a (advance gn 1)) /\
        commits_on d sched = day_count a (advance gn 1) /\
        day_bound a (advance gn 1) =
          randint_value 1 (clamp (max_commits a)) (draw gn 1) /\
        day_count a (advance gn 1) =
          randint_value 1 (day_bound a (advance gn 1)) (draw gn 2) /\
        1 <= commits_on d sched <= day_bound a (advance gn 1) /\
        1 <= day_bound a (advance gn 1) <= clamp (max_commits a)
  | Raise e => e = OverflowError /\ window_representable a now = false
  end /\
  (window_representable a now = true ->
   0 < days_before a + days_after a ->
   no_weekends a = false \/ weekday (stamp now (first_day a now) 0) < 5 ->
   0 < frequency a ->
   forall B k, 1 <= B <= clamp (max_commits a) -> 1 <= k <= B ->
     exists g' sched,
       (_generate_commit_dates a now g').1 = Ok sched /\
       (day_included a (stamp now (first_day a now) 0) g').1 = Ok true /\
       day_bound a (advance g' 1) = B /\
       commits_on (first_day a now) sched = k).
Proof.
  intros Hv Ho. split; [exact (draws_of_a_day a now g o acc Hv Ho)|]. split.
  - pose proof (schedule_days a now g Hv) as H.
    destruct (_generate_commit_dates a now g).1 as [sched|e]; [|exact H].
    intros n Hn gn d Hinc.
    destruct (H n Hn) as (Hd & Hstep & Hdates & Hcnt & Hsrc).
    fold gn d in Hd, Hstep, Hdates, Hcnt, Hsrc.
    rewrite included_cases in Hinc. injection Hinc as Hinc.
    rewrite Hinc in Hdates, Hcnt.
    apply andb_true_iff in Hinc as [Hwd Hdraw].
    rewrite Hwd, Hdraw in Hsrc. rewrite Hsrc in Hstep.
    pose proof (clamp_bounds (max_commits a)) as Hc.
    pose proof (day_bound_bounds a (advance gn 1)) as Hb.
    pose proof (day_count_bounds a (advance gn 1)) as Hk.
    split; [|split; [|split; [exact Hstep|split; [exact Hsrc|
      split; [exact Hdates|split; [exact Hcnt|split; [|split;
        [|split; [lia|exact Hb]]]]]]]]].
    + unfold _contributions_per_day. fold (clamp (max_commits a)).
      rewrite randint_eq by lia. now rewrite advance_advance.
    + rewrite randint_eq by lia. unfold day_count.
      rewrite !draw_advance, advance_advance. reflexivity.
    + unfold day_bound. rewrite draw_advance. reflexivity.
    + unfold day_count. rewrite draw_advance. reflexivity.
  - intros Hw HN Hwd Hf B k HB Hk.
    set (g' := mk_rng (fun i => match i with
                                | O => 0
                                | S O => B - 1
                                | _ => k - 1
                                end) 0).
    assert (Hdraw : day_draw g' = 0) by reflexivity.
    assert (EB : day_bound a (advance g' 1) = B).
    { unfold day_bound, draw. simpl. apply randint_value_onto. lia. }
    assert (Ek : day_count a (advance g' 1) = k).
    { unfold day_count. rewrite EB. unfold draw. simpl.
      apply randint_value_onto. lia. }
    apply (weekday_ok_iff a now) in Hwd.
    pose proof (schedule_days a now g' Hv) as H.
    destruct (_generate_commit_dates a now g').1 as [sched|e] eqn:E;
      [|destruct H; congruence].
    exists g', sched. split; [exact E|].
    destruct (H 0 ltac:(lia)) as (_ & _ & _ & Hcnt & _).
    rewrite source_before_0, Z.add_0_r in Hcnt.
    rewrite included_cases, Hwd, Hdraw.
    rewrite Hwd, Hdraw in Hcnt.
    replace (0 <? frequency a) with true in *
      by (symmetry; apply Z.ltb_lt; lia).
    split; [reflexivity|]. split; [exact EB|]. now rewrite Hcnt.
Qed.

Lemma count_is_drawn_twice_witness :
  valid_datetime now_sample /\ in_range 738994 = true /\
  (day_included args_week (stamp now_sample 738994 0)
     (source_before args_week now_sample rng_sample 1)).1 = Ok true /\
  day_bound args_week
    (advance (source_before args_week now_sample rng_sample 1) 1) = 20 /\
  day_count args_week
    (advance (source_before args_week now_sample rng_sample 1) 1) = 17 /\
  match (_generate_commit_dates args_week now_sample rng_sample).1 with
  | Ok sched =>
      commits_on 738994 sched =
      day_count args_week
        (advance (source_before args_week now_sample rng_sample 1) 1)
  | Raise _ => False
  end.
Proof.
  split; [exact now_sample_valid|]. split; [reflexivity|].
  split; [reflexivity|]. split; [reflexivity|]. split; [reflexivity|].
  pose proof (count_is_drawn_twice args_week now_sample rng_sample 738994 []
                now_sample_valid eq_refl) as (_ & H & _).
  destruct (_generate_commit_dates args_week now_sample rng_sample).1
    as [sched|e].
  - assert (Hn : 0 <= 1 < days_before args_week + days_after args_week)
      by (simpl; lia).
    assert (Hinc : (day_included args_week
                      (stamp now_sample (first_day args_week now_sample + 1) 0)
                      (source_before args_week now_sample rng_sample 1)).1
                   = Ok true) by reflexivity.
    destruct (H 1 Hn Hinc) as (_ & _ & _ & _ & _ & Hc & _). exact Hc.
  - destruct H as [_ Hw]. discriminate Hw.
Defined.

(** C3. The dates of an included day are at least 1 and at most
    [clamp(max_commits)], a bound between 1 and 20 that is 1 for
    [max_commits <= 0] and 20 for [max_commits > 20].  It holds of the step
    of one day from any source, and of the schedule
    [_generate_commit_dates] returns: the dates of each day of the window
    are those [day_step] appends from the source the loop has there, at
    least 1 and at most the bound when the day is included (exactly 1 for
    [max_commits <= 0], at most 20 for [max_commits > 20]), none when it is
    not, and no day has more than the bound. *)
Theorem commits_per_day_clamped (a : Args) (now : datetime) (g : rng) :
  valid_datetime now ->
  (forall o acc,
     in_range o = true ->
     (day_included a (stamp now o 0) g).1 = Ok true ->
     exists k,
       day_step a (stamp now o 0) acc g =
         (Ok (acc ++ day_block now o k), advance g 3) /\
       Z.of_nat (length (day_block now o k)) = k /\
       1 <= k <= clamp (max_commits a)) /\
  match (_generate_commit_dates a now g).1 with
  | Ok sched =>
      (forall o, commits_on o sched = 0 \/
                 1 <= commits_on o sched <= clamp (max_commits a)) /\
      (forall n, 0 <= n < days_before a + days_after a ->
         let gn := source_before a now g n in
         let d := first_day a now + n in
         day_step a (stamp now d 0) [] gn =
           (Ok (dates_on d sched), source_before a now g (n + 1)) /\
         commits_on d sched = Z.of_nat (length (dates_on d sched)) /\
         ((day_included a (stamp now d 0) gn).1 = Ok true ->
          1 <= commits_on d sched <= clamp (max_commits a) /\
          (max_commits a <= 0 -> commits_on d sched = 1) /\
          (20 < max_commits a -> commits_on d sched <= 20)) /\
         ((day_included a (stamp now d 0) gn).1 = Ok false ->
          commits_on d sched = 0))
  | Raise e => e = OverflowError /\ window_representable a now = false
  end /\
  1 <= clamp (max_commits a) <= 20 /\
  (max_commits a <= 0 -> clamp (max_commits a) = 1) /\
  (20 < max_commits a -> clamp (max_commits a) = 20).
Proof.
  intros Hv.
  destruct (counts_clamped a now g Hv) as (Hstep & Hall & Hc & Hlo & Hhi).
  split; [exact Hstep|]. split; [|split; [exact Hc|split; assumption]].
  pose proof (schedule_days a now g Hv) as H.
  destruct (_generate_commit_dates a now g).1 as [sched|e]; [|exact H].
  split; [exact Hall|]. intros n Hn gn d.
  destruct (H n Hn) as (_ & Hst & _ & Hcnt & _).
  fold gn d in Hst, Hcnt.
  split; [exact Hst|]. split; [apply commits_on_dates_on|].
  pose proof (day_bound_bounds a (advance gn 1)) as Hb.
  pose proof (day_count_bounds a (advance gn 1)) as Hk.
  split; intros Hinc; rewrite included_cases in Hinc;
    injection Hinc as Hinc; rewrite Hinc in Hcnt.
  - split; [lia|]. split; intros Hm.
    + specialize (Hlo Hm). lia.
    + lia.
  - exact Hcnt.
Qed.

Lemma commits_per_day_clamped_witness :
  valid_datetime now_sample /\
  (day_included args_week (stamp now_sample 738994 0)
     (source_before args_week now_sample rng_sample 1)).1 = Ok true /\
  clamp (max_commits args_week) = 20 /\
  match (_generate_commit_dates args_week now_sample rng_sample).1 with
  | Ok sched => 1 <= commits_on 738994 sched <= 20
  | Raise _ => False
  end.
Proof.
  split; [exact now_sample_valid|]. split; [reflexivity|].
  split; [reflexivity|].
  pose proof (commits_per_day_clamped args_week now_sample rng_sample
                now_sample_valid) as (_ & H & _).
  destruct (_generate_commit_dates args_week now_sample rng_sample).1
    as [sched|e].
  - destruct H as [_ H].
    assert (Hn : 0 <= 1 < days_before args_week + days_after args_week)
      by (simpl; lia).
    assert (Hinc : (day_included args_week
                      (stamp now_sample (first_day args_week now_sample + 1) 0)
                      (source_before args_week now_sample rng_sample 1)).1
                   = Ok true) by reflexivity.
    destruct (H 1 Hn) as (_ & _ & Hc & _).
    destruct (Hc Hinc) as [Hc1 _]. exact Hc1.
  - destruct H as [_ Hw]. discriminate Hw.
Defined.

(** C4. A day that is not skipped as a weekend is included exactly when the
    draw of [randint(0, 100)] is below [frequency].  It holds of the test
    and the step of one day from any source, and of the schedule
    [_generate_commit_dates] returns: a day of the window that is not
    skipped has dates in the schedule exactly when the draw the loop makes
    for it, one of the 101 values 0..100, is below [frequency]; the loop
    goes on one draw later when it has none.  So with [frequency <= 0] no
    day has dates and the schedule is empty, with [frequency = 100] such a
    day has none exactly when the draw is 100, and above 100 every such day
    has some.  A day skipped as a weekend has no dates and takes no
    draw. *)
Theorem included_iff_draw_below_frequency (a : Args) (now : datetime)
    (g : rng) (day : datetime) :
  valid_datetime now ->
  no_weekends a = false \/ weekday day < 5 ->
  (0 <= day_draw g <= 100 /\
  day_included a day g = (Ok (day_draw g <? frequency a), advance g 1) /\
  (forall o acc, day = stamp now o 0 -> in_range o = true ->
     (day_draw g < frequency a ->
      exists k, 1 <= k /\
        day_step a day acc g = (Ok (acc ++ day_block now o k), advance g 3)) /\
     (frequency a <= day_draw g ->
      day_step a day acc g = (Ok acc, advance g 1))) /\
  (frequency a <= 0 ->
   match (_generate_commit_dates a now g).1 with
   | Ok sched => sched = []
   | Raise e => e = OverflowError /\ window_representable a now = false
   end) /\
  (frequency a = 100 ->
   (day_included a day g = (Ok false, advance g 1) <-> day_draw g = 100)) /\
  (forall v, 0 <= v <= 100 ->
     forall r, 0 <= r <= 100 -> (randint_value 0 100 r = v <-> r = v))) /\
  match (_generate_commit_dates a now g).1 with
  | Ok sched =>
      forall n, 0 <= n < days_before a + days_after a ->
        let gn := source_before a now g n in
        let d := first_day a now + n in
        day_step a (stamp now d 0) [] gn =
          (Ok (dates_on d sched), source_before a now g (n + 1)) /\
        (no_weekends a = false \/ weekday (stamp now d 0) < 5 ->
         0 <= day_draw gn <= 100 /\
         day_draw gn = randint_value 0 100 (draw gn 0) /\
         (day_included a (stamp now d 0) gn).1 =
           Ok (day_draw gn <? frequency a) /\
         ((exists x, In x sched /\ ordinal x = d) <->
          day_draw gn < frequency a) /\
         (day_draw gn < frequency a ->
          1 <= commits_on d sched /\
          source_before a now g (n + 1) = advance gn 3) /\
         (frequency a <= day_draw gn ->
          commits_on d sched = 0 /\
          source_before a now g (n + 1) = advance gn 1) /\
         (frequency a <= 0 -> commits_on d sched = 0) /\
         (frequency a = 100 ->
          (commits_on d sched = 0 <-> day_draw gn = 100)) /\
         (100 < frequency a -> 1 <= commits_on d sched)) /\
        (no_weekends a = true -> 5 <= weekday (stamp now d 0) ->
         (day_included a (stamp now d 0) gn).1 = Ok false /\
         commits_on d sched = 0 /\
         source_before a now g (n + 1) = gn)
  | Raise e => e = OverflowError /\ window_representable a now = false
  end.
Proof.
  intros Hv Hday.
  split; [exact (test_of_a_day a now g day Hv Hday)|].
  pose proof (schedule_days a now g Hv) as H.
  destruct (_generate_commit_dates a now g).1 as [sched|e]; [|exact H].
  intros n Hn gn d.
  destruct (H n Hn) as (_ & Hst & _ & Hcnt & Hsrc).
  fold gn d in Hst, Hcnt, Hsrc.
  split; [exact Hst|].
  pose proof (randint_value_bounds 0 100 (draw gn 0) ltac:(lia)) as Hdr.
  fold (day_draw gn) in Hdr.
  pose proof (day_bound_bounds a (advance gn 1)) as Hb.
  pose proof (day_count_bounds a (advance gn 1)) as Hk.
  split.
  - intros Hwd. apply (weekday_ok_iff a now) in Hwd.
    rewrite included_cases. rewrite Hwd in Hcnt, Hsrc |- *.
    cbn [andb] in Hcnt |- *. rewrite dates_on_In, Hcnt.
    destruct (Z.ltb_spec (day_draw gn) (frequency a)) as [Hlt|Hge].
    + split; [exact Hdr|]. split; [reflexivity|]. split; [reflexivity|].
      split; [split; intros _; lia|].
      split; [intros _; split; [lia|exact Hsrc]|].
      split; [intros Hf; lia|]. split; [intros Hf; lia|].
      split; [intros Hf; split; intros Hx; lia|intros _; lia].
    + split; [exact Hdr|]. split; [reflexivity|]. split; [reflexivity|].
      split; [split; intros Hx; lia|].
      split; [intros Hf; lia|].
      split; [intros _; split; [reflexivity|exact Hsrc]|].
      split; [intros _; reflexivity|].
      split; [intros Hf; split; intros Hx; [lia|reflexivity]|intros Hf; lia].
  - intros Hnw Hwe. rewrite included_cases.
    assert (Hwd : weekday_ok a d = false).
    { apply not_true_is_false. intros Hok.
      apply (weekday_ok_iff a now) in Hok as [Hok|Hok]; [congruence|lia]. }
    rewrite Hwd in Hcnt, Hsrc |- *. cbn [andb] in Hcnt |- *.
    split; [reflexivity|]. split; [exact Hcnt|exact Hsrc].
Qed.

Lemma included_iff_draw_below_frequency_witness :
  valid_datetime now_sample /\
  (no_weekends args_week = false \/ weekday (stamp now_sample 738994 0) < 5) /\
  day_draw (source_before args_week now_sample rng_sample 1) = 21 /\
  frequency args_week = 80 /\
  match (_generate_commit_dates args_week now_sample rng_sample).1 with
  | Ok sched =>
      (exists x, In x sched /\ ordinal x = 738994) <->
      day_draw (source_before args_week now_sample rng_sample 1)
      < frequency args_week
  | Raise _ => False
  end.
Proof.
  split; [exact now_sample_valid|].
  split; [right; reflexivity|]. split; [reflexivity|].
  split; [reflexivity|].
  pose proof (included_iff_draw_below_frequency args_week now_sample
                rng_sample (stamp now_sample 738994 0) now_sample_valid
                (or_intror eq_refl)) as [_ H].
  destruct (_generate_commit_dates args_week now_sample rng_sample).1
    as [sched|e].
  - assert (Hn : 0 <= 1 < days_before args_week + days_after args_week)
      by (simpl; lia).
    assert (Hwd : no_weekends args_week = false \/
                  weekday (stamp now_sample
                             (first_day args_week now_sample + 1) 0) < 5)
      by (right; reflexivity).
    destruct (H 1 Hn) as (_ & Hd & _).
    destruct (Hd Hwd) as (_ & _ & _ & Hiff & _). exact Hiff.
  - destruct H as [_ Hw]. discriminate Hw.
Defined.
